(** * The Modelica formatter of [prettier-plugin-modelica.js]

    A shallow embedding of [formatModelica] and of the JavaScript string
    and regular-expression operations it is written with, followed by the
    properties of the formatter that were checked against it.

    Conventions of the embedding
    - a JavaScript string is a list of code units; code units are the 8-bit
      [ascii] of the standard library, so the white space class is
      {9..13, 32, 160} (the part of the JavaScript class below 256);
    - [indentLevel] and the other integral numbers are [Z]; the one
      division of the program ([indent.length / tabWidth]) is carried out
      on binary64 floats, as the engine does;
    - an exception is a value of the error monad [result]; the limit of
      the engine on the length of a string is not modelled. *)

From Stdlib Require Import String Ascii ZArith Bool Lia Floats Uint63 List.
Import ListNotations.

Local Open Scope string_scope.
Local Open Scope list_scope.
Local Open Scope Z_scope.

(** ** Strings *)

Abbreviation jsstring := (list ascii).

Definition str (s : string) : jsstring := list_ascii_of_string s.

Definition nl : ascii := ascii_of_nat 10.
Definition cr : ascii := ascii_of_nat 13.
Definition sp : ascii := ascii_of_nat 32.

Definition inRange (lo hi : nat) (c : ascii) : bool :=
  let n := nat_of_ascii c in (Nat.leb lo n && Nat.leb n hi)%bool.

(** [\s] and the characters removed by [trim]. *)
Definition isSpace (c : ascii) : bool :=
  (inRange 9 13 c || Ascii.eqb c sp || Ascii.eqb c (ascii_of_nat 160))%bool.

(** the line feed, as a class *)
Definition isNl (c : ascii) : bool := Ascii.eqb nl c.

(** [\d] *)
Definition isDigit (c : ascii) : bool := inRange 48 57 c.

(** [\w] *)
Definition isWord (c : ascii) : bool :=
  (inRange 97 122 c || inRange 65 90 c || isDigit c || Ascii.eqb c "_"%char)%bool.

Fixpoint dropWhile (p : ascii -> bool) (s : jsstring) : jsstring :=
  match s with
  | c :: t => if p c then dropWhile p t else s
  | [] => []
  end.

Fixpoint takeWhile (p : ascii -> bool) (s : jsstring) : jsstring :=
  match s with
  | c :: t => if p c then c :: takeWhile p t else []
  | [] => []
  end.

(** [s.trim()] *)
Definition trim (s : jsstring) : jsstring :=
  rev (dropWhile isSpace (rev (dropWhile isSpace s))).

Fixpoint streq (a b : jsstring) : bool :=
  match a, b with
  | [], [] => true
  | x :: a', y :: b' => (Ascii.eqb x y && streq a' b')%bool
  | _, _ => false
  end.

(** [s.startsWith(p)] *)
Fixpoint startsWith (s p : jsstring) : bool :=
  match p, s with
  | [], _ => true
  | x :: p', y :: s' => (Ascii.eqb x y && startsWith s' p')%bool
  | _ :: _, [] => false
  end.

(** [s.endsWith(p)] *)
Definition endsWith (s p : jsstring) : bool := startsWith (rev s) (rev p).

(** [s.includes(p)] *)
Fixpoint includes (s p : jsstring) : bool :=
  (startsWith s p ||
   match s with
   | [] => false
   | _ :: t => includes t p
   end)%bool.

(** [s.split(c)] for a one-character separator: never the empty array. *)
Fixpoint split (c : ascii) (s : jsstring) : list jsstring :=
  match s with
  | [] => [[]]
  | x :: t =>
      if Ascii.eqb x c then [] :: split c t
      else match split c t with
           | l :: ls => (x :: l) :: ls
           | [] => [[x]]
           end
  end.

(** [a.join(c)] *)
Fixpoint join (c : ascii) (ls : list jsstring) : jsstring :=
  match ls with
  | [] => []
  | [l] => l
  | l :: ls' => l ++ c :: join c ls'
  end.

(** ** Exceptions *)

Inductive exn := RangeError.

Inductive result (A : Type) : Type :=
| Ok (a : A)
| Throw (e : exn).
Arguments Ok {A} a.
Arguments Throw {A} e.

Definition bind {A B} (m : result A) (f : A -> result B) : result B :=
  match m with
  | Ok a => f a
  | Throw e => Throw e
  end.

Notation "x <- m ;; k" := (bind m (fun x => k))
  (at level 61, m at next level, right associativity).

(** [s.repeat(n)] for an integral count: a negative count is a RangeError. *)
Definition jsRepeat (s : jsstring) (n : Z) : result jsstring :=
  if n <? 0 then Throw RangeError
  else Ok (concat (repeat s (Z.to_nat n))).

(** ** Numbers of the corrective pass

    [indent.length / tabWidth] need not be integral, and the count handed
    to [repeat] is the product [(eqIndentLevel + 1) * tabWidth] computed on
    doubles. *)

Definition num (z : Z) : float :=
  if z <? 0 then PrimFloat.opp (PrimFloat.of_uint63 (Uint63.of_Z (- z)))
  else PrimFloat.of_uint63 (Uint63.of_Z z).

(** ToIntegerOrInfinity: NaN is 0, a finite number is truncated toward
    zero, an infinity stays one ([None]). *)
Definition toIntegerOrInfinity (f : float) : option Z :=
  match Prim2SF f with
  | S754_zero _ => Some 0
  | S754_nan => Some 0
  | S754_infinity _ => None
  | S754_finite s m e =>
      let a := if 0 <=? e then Z.shiftl (Zpos m) e
               else Z.shiftr (Zpos m) (- e) in
      Some (if s then - a else a)
  end.

(** [s.repeat(x)] for a count that is a double. *)
Definition jsRepeatNum (s : jsstring) (x : float) : result jsstring :=
  match toIntegerOrInfinity x with
  | Some n => jsRepeat s n
  | None => Throw RangeError
  end.

(** ** Regular expressions

    The fragment of the JavaScript pattern language that the formatter
    uses: literals, classes, alternation, greedy quantifiers on a
    one-character atom, capturing groups, [^] and [$] (no [m] flag), [\b]
    and lookahead. Matching is by backtracking, leftmost alternative and
    longest repetition first, as in the language. *)

Inductive regex : Type :=
| REps
| RChar (c : ascii)
| RSet (p : ascii -> bool)
| RSeq (a b : regex)
| RAlt (a b : regex)
| RRep (p : ascii -> bool) (lo : nat) (hi : option nat)
| RGroup (i : nat) (a : regex)
| RBol
| REol
| RWordB
| RLook (positive : bool) (a : regex).

Record mstate : Type := MState {
  before : option ascii;          (* the code unit left of the position *)
  rest : jsstring;                (* the input from the position on *)
  consumed : nat;                 (* code units matched so far *)
  caps : list (nat * jsstring)    (* the captures, latest first *)
}.

Definition advance (c : ascii) (t : jsstring) (s : mstate) : mstate :=
  MState (Some c) t (S (consumed s)) (caps s).

Definition belowMax (hi : option nat) (n : nat) : bool :=
  match hi with
  | Some h => Nat.ltb n h
  | None => true
  end.

(** A greedy quantifier: one more character first, the shorter run only
    when the rest of the pattern fails after the longer one. *)
Fixpoint rep (p : ascii -> bool) (lo : nat) (hi : option nat) (n : nat)
    (l : jsstring) (s : mstate) (k : mstate -> option mstate)
    {struct l} : option mstate :=
  let stop := if Nat.leb lo n then k s else None in
  match l with
  | c :: t =>
      if (p c && belowMax hi n)%bool then
        match rep p lo hi (S n) t (advance c t s) k with
        | Some m => Some m
        | None => stop
        end
      else stop
  | [] => stop
  end.

Definition isWordOpt (o : option ascii) : bool :=
  match o with
  | Some c => isWord c
  | None => false
  end.

Fixpoint rmatch (r : regex) (s : mstate) (k : mstate -> option mstate)
    {struct r} : option mstate :=
  match r with
  | REps => k s
  | RChar c =>
      match rest s with
      | x :: t => if Ascii.eqb x c then k (advance x t s) else None
      | [] => None
      end
  | RSet p =>
      match rest s with
      | x :: t => if p x then k (advance x t s) else None
      | [] => None
      end
  | RSeq a b => rmatch a s (fun s1 => rmatch b s1 k)
  | RAlt a b =>
      match rmatch a s k with
      | Some m => Some m
      | None => rmatch b s k
      end
  | RRep p lo hi => rep p lo hi 0 (rest s) s k
  | RGroup i a =>
      rmatch a s (fun s1 =>
        k (MState (before s1) (rest s1) (consumed s1)
             ((i, firstn (consumed s1 - consumed s) (rest s)) :: caps s1)))
  | RBol =>
      match before s with
      | None => k s
      | Some _ => None
      end
  | REol =>
      match rest s with
      | [] => k s
      | _ :: _ => None
      end
  | RWordB =>
      if xorb (isWordOpt (before s)) (isWordOpt (hd_error (rest s)))
      then k s else None
  | RLook positive a =>
      match rmatch a s Some with
      | Some _ => if positive then k s else None
      | None => if positive then None else k s
      end
  end.

(** One attempt at one position: the length of the match and its captures. *)
Definition exec (r : regex) (prev : option ascii) (input : jsstring)
  : option (nat * list (nat * jsstring)) :=
  match rmatch r (MState prev input 0 []) Some with
  | Some m => Some (consumed m, caps m)
  | None => None
  end.

Fixpoint capture (i : nat) (cs : list (nat * jsstring)) : jsstring :=
  match cs with
  | [] => []
  | (j, v) :: cs' => if Nat.eqb i j then v else capture i cs'
  end.

(** Replacement text: literal text, [$n], and the whole match (the
    argument of a replacement function). *)
Inductive piece : Type :=
| PLit (s : jsstring)
| PCap (i : nat)
| PMatch.

Definition expand (tpl : list piece) (whole : jsstring)
    (cs : list (nat * jsstring)) : jsstring :=
  concat (map (fun p =>
                 match p with
                 | PLit s => s
                 | PCap i => capture i cs
                 | PMatch => whole
                 end) tpl).

(** [s.replace(/r/g, tpl)]: matches are looked for from left to right,
    each search starting where the previous match ended; the [skip]
    characters of a match that was just replaced are passed over. *)
Fixpoint replaceFrom (r : regex) (tpl : list piece) (skip : nat)
    (prev : option ascii) (s : jsstring) {struct s} : jsstring :=
  match skip with
  | S n =>
      match s with
      | c :: t => replaceFrom r tpl n (Some c) t
      | [] => []
      end
  | O =>
      match exec r prev s with
      | Some (len, cs) =>
          expand tpl (firstn len s) cs ++
          match s with
          | c :: t =>
              match len with
              | O => c :: replaceFrom r tpl 0 (Some c) t
              | S n => replaceFrom r tpl n (Some c) t
              end
          | [] => []
          end
      | None =>
          match s with
          | c :: t => c :: replaceFrom r tpl 0 (Some c) t
          | [] => []
          end
      end
  end.

Definition replaceAll (r : regex) (tpl : list piece) (s : jsstring) : jsstring :=
  replaceFrom r tpl 0 None s.

(** [s.match(/r/)[0]] for a pattern anchored at the start. *)
Definition matchStart (r : regex) (s : jsstring) : option jsstring :=
  match exec r None s with
  | Some (len, _) => Some (firstn len s)
  | None => None
  end.

(** *** Pattern notation *)

Fixpoint lit' (s : jsstring) : regex :=
  match s with
  | [] => REps
  | [c] => RChar c
  | c :: t => RSeq (RChar c) (lit' t)
  end.

Definition lit (s : string) : regex := lit' (str s).

Fixpoint seq (rs : list regex) : regex :=
  match rs with
  | [] => REps
  | [r] => r
  | r :: rs' => RSeq r (seq rs')
  end.

Fixpoint alt (rs : list regex) : regex :=
  match rs with
  | [] => REps
  | [r] => r
  | r :: rs' => RAlt r (alt rs')
  end.

Definition oneOf (s : string) : regex :=
  RSet (fun c => existsb (Ascii.eqb c) (str s)).

Definition noneOf (s : string) (c : ascii) : bool :=
  negb (existsb (Ascii.eqb c) (str s)).

Definition ch (s : string) : regex := lit s.
Definition ws0 : regex := RRep isSpace 0 None.        (* \s* *)
Definition ws1 : regex := RRep isSpace 1 None.        (* \s+ *)
Definition ws : regex := RSet isSpace.                (* \s *)
Definition nonws : regex := RSet (fun c => negb (isSpace c)). (* \S *)
Definition digit : regex := RSet isDigit.             (* \d *)
Definition digits : regex := RRep isDigit 1 None.     (* \d+ *)
Definition word : regex := RSet isWord.               (* \w *)
Definition words : regex := RRep isWord 1 None.       (* \w+ *)
Definition grp (i : nat) (r : regex) : regex := RGroup i r.
Definition txt (s : string) : piece := PLit (str s).
Definition cap (i : nat) : piece := PCap i.

Definition tnl : piece := PLit [nl].

(** ** The patterns of the formatter, in the order of the source *)

Module Pat.

(* /\r\n/g *)
Definition crlf : regex := seq [RChar cr; RChar nl].
(* /\/\s+\//g *)
Definition brokenComment : regex := seq [ch "/"; ws1; ch "/"].

(* /(nUniShc|nUniHea|nUniCoo)\s+-\s+(\d+)/g *)
Definition nUniMinus : regex :=
  seq [grp 1 (alt [lit "nUniShc"; lit "nUniHea"; lit "nUniCoo"]);
       ws1; ch "-"; ws1; grp 2 digits].
(* /\(\s*1\s+-\s+ratCycShc\)/g *)
Definition oneMinusRat : regex :=
  seq [ch "("; ws0; ch "1"; ws1; ch "-"; ws1; lit "ratCycShc"; ch ")"].
(* /\(nUniShc\s+-\s+(\d+)\s+\+\s+ratCycShc\)/g *)
Definition nUniShcRat : regex :=
  seq [ch "("; lit "nUniShc"; ws1; ch "-"; ws1; grp 1 digits;
       ws1; ch "+"; ws1; lit "ratCycShc"; ch ")"].

(* /within\s+([^;]+);/g *)
Definition within : regex :=
  seq [lit "within"; ws1; grp 1 (RRep (noneOf ";") 1 None); ch ";"].
(* /within[^;]*;\n(?!\s*$)/g *)
Definition withinLine : regex :=
  seq [lit "within"; RRep (noneOf ";") 0 None; ch ";"; RChar nl;
       RLook false (seq [ws0; REol])].
(* /,(?=\S)/g *)
Definition comma : regex := seq [ch ","; RLook true nonws].
(* /\s*([+*\/=<>])\s*/g *)
Definition operator : regex := seq [ws0; grp 1 (oneOf "+*/=<>"); ws0].
(* /(\w|\)|\]|\})\s*-\s*/g *)
Definition subtraction : regex :=
  seq [grp 1 (alt [word; ch ")"; ch "]"; ch "}"]); ws0; ch "-"; ws0].
(* /(\s|^|,|\(|\[|\{|=)-\s+(\d)/g *)
Definition negativeLiteral : regex :=
  seq [grp 1 (alt [ws; RBol; ch ","; ch "("; ch "["; ch "{"; ch "="]);
       ch "-"; ws1; grp 2 digit].
(* /(\*|\/|\+|\s)\s*-\s+(\d)/g *)
Definition negation : regex :=
  seq [grp 1 (alt [ch "*"; ch "/"; ch "+"; ws]); ws0; ch "-"; ws1;
       grp 2 digit].
(* /([eE])\s*-\s*(\d)/g *)
Definition exponentMinus : regex :=
  seq [grp 1 (oneOf "eE"); ws0; ch "-"; ws0; grp 2 digit].
(* /([eE])\s*\+\s*(\d)/g *)
Definition exponentPlus : regex :=
  seq [grp 1 (oneOf "eE"); ws0; ch "+"; ws0; grp 2 digit].

(* /annotation\s*\(\s*/g *)
Definition annotation : regex := seq [lit "annotation"; ws0; ch "("; ws0].
(* /\[\s*:\s*\]/g *)
Definition bareColon : regex := seq [ch "["; ws0; ch ":"; ws0; ch "]"].
(* /(\d|\w|\))\s*:\s*(\d|\w|\()/g *)
Definition range : regex :=
  seq [grp 1 (alt [digit; word; ch ")"]); ws0; ch ":"; ws0;
       grp 2 (alt [digit; word; ch "("])].
(* /(\w+)\s*\[\s*(\d+)\s*:\s*(\d+)\s*\]/g *)
Definition indexRange : regex :=
  seq [grp 1 words; ws0; ch "["; ws0; grp 2 digits; ws0; ch ":"; ws0;
       grp 3 digits; ws0; ch "]"].
(* /(\w+)\s*\[\s*:\s*\]/g *)
Definition indexColon : regex :=
  seq [grp 1 words; ws0; ch "["; ws0; ch ":"; ws0; ch "]"].
(* /for\s+(\w+)\s+in\s+(\d+)\s*:\s*(\d+)/g *)
Definition forRange : regex :=
  seq [lit "for"; ws1; grp 1 words; ws1; lit "in"; ws1; grp 2 digits;
       ws0; ch ":"; ws0; grp 3 digits].
(* /\[\s*-\s*(\d+)/g *)
Definition bracketMinus : regex := seq [ch "["; ws0; ch "-"; ws0; grp 1 digits].
(* /\{\s*-\s*(\d+)/g *)
Definition braceMinus : regex := seq [ch "{"; ws0; ch "-"; ws0; grp 1 digits].
(* /\b(parameter|input|output|constant)\b(?=\S)/g *)
Definition prefixKeyword : regex :=
  seq [RWordB;
       grp 1 (alt [lit "parameter"; lit "input"; lit "output"; lit "constant"]);
       RWordB; RLook true nonws].
(* /\n{3,}/g *)
Definition blankLines : regex := RRep isNl 3 None.
(* /(equation|algorithm|public|protected|initial equation|initial algorithm)\n(?!\s*$)/g *)
Definition sectionHeader : regex :=
  seq [grp 1 (alt [lit "equation"; lit "algorithm"; lit "public";
                   lit "protected"; lit "initial equation";
                   lit "initial algorithm"]);
       RChar nl; RLook false (seq [ws0; REol])].

(* /^\s*/ *)
Definition leadingSpace : regex := seq [RBol; ws0].

(* /\s+-(\d)/g *)
Definition spacedMinus : regex := seq [ws1; ch "-"; grp 1 digit].
(* /\(\s*-\s*(\d)/g *)
Definition parenMinus : regex := seq [ch "("; ws0; ch "-"; ws0; grp 1 digit].
(* /\[\s*-\s*(\d)/g *)
Definition bracketMinus1 : regex := seq [ch "["; ws0; ch "-"; ws0; grp 1 digit].
(* /,\s*-\s*(\d)/g *)
Definition commaMinus : regex := seq [ch ","; ws0; ch "-"; ws0; grp 1 digit].
(* /=\s*-\s*(\d)/g *)
Definition equalsMinus : regex := seq [ch "="; ws0; ch "-"; ws0; grp 1 digit].
(* /nUniShc\s+-\s+(\d)/g *)
Definition nUniShcMinus : regex :=
  seq [lit "nUniShc"; ws1; ch "-"; ws1; grp 1 digit].
(* /\(\s*nUniShc\s+-\s+(\d)/g *)
Definition parenNUniShcMinus : regex :=
  seq [ch "("; ws0; lit "nUniShc"; ws1; ch "-"; ws1; grp 1 digit].
(* /\s+\*\s+-\s+(\d)/g *)
Definition timesMinus : regex :=
  seq [ws1; ch "*"; ws1; ch "-"; ws1; grp 1 digit].
(* /\s+\/\s+-\s+(\d)/g *)
Definition divMinus : regex :=
  seq [ws1; ch "/"; ws1; ch "-"; ws1; grp 1 digit].
(* /\(nUniShc\s*-\s*(\d+)\s+\+\s+ratCycShc\)/g *)
Definition nUniShcRat0 : regex :=
  seq [ch "("; lit "nUniShc"; ws0; ch "-"; ws0; grp 1 digits;
       ws1; ch "+"; ws1; lit "ratCycShc"; ch ")"].
(* /\((nUniShc|nUniHea|nUniCoo)\s*-\s*\d+\)/g *)
Definition nUniMinusParen : regex :=
  seq [ch "(";
       grp 1 (alt [lit "nUniShc"; lit "nUniHea"; lit "nUniCoo"]);
       ws0; ch "-"; ws0; digits; ch ")"].

End Pat.

(** ** The formatter *)

Record Options : Type := {
  tabWidth : option Z;      (* [None]: the property is undefined *)
  printWidth : option Z
}.

Definition orDefault (o : option Z) (d : Z) : Z :=
  match o with
  | Some v => v
  | None => d
  end.

Definition eqs (line : jsstring) (s : string) : bool := streq line (str s).
Definition starts (line : jsstring) (s : string) : bool := startsWith line (str s).
Definition ends (line : jsstring) (s : string) : bool := endsWith line (str s).

(** *** Stage 1: the preprocessing of the lines (source lines 53-58) *)

Definition preprocessLine (l : jsstring) : jsstring :=
  let l := replaceAll Pat.nUniMinus [cap 1; txt "-"; cap 2] l in
  let l := replaceAll Pat.oneMinusRat [txt "(1-ratCycShc)"] l in
  replaceAll Pat.nUniShcRat [txt "(nUniShc-"; cap 1; txt " + ratCycShc)"] l.

(** *** Stage 2: the indentation scan (source lines 60-179) *)

(** A frame of [controlBlocks]. *)
Record frame : Type := Frame { type : jsstring; level : Z }.

(** The variables of the scan. [controlBlocks] has its last pushed frame
    first. *)
Record scan : Type := Scan {
  indentLevel : Z;
  inEquation : bool;
  inAlgorithm : bool;
  controlBlocks : list frame
}.

Definition scanStart : scan := Scan 0 false false [].

Definition isSectionStart (line : jsstring) : bool :=
  (eqs line "equation" || eqs line "initial equation" ||
   eqs line "algorithm" || eqs line "initial algorithm")%bool.

Definition isClassStart (line : jsstring) : bool :=
  (starts line "model " || starts line "block " ||
   starts line "package " || starts line "function " ||
   starts line "record " || starts line "connector " ||
   starts line "class ")%bool.

Definition isControlStart (line : jsstring) : bool :=
  ((starts line "if " && ends line "then") ||
   (starts line "when " && ends line "then") ||
   (starts line "for " && ends line "loop"))%bool.

Definition isControlEnd (line : jsstring) : bool :=
  (starts line "end if" || starts line "end when" || starts line "end for")%bool.

Definition isElse (line : jsstring) : bool :=
  (eqs line "else" || starts line "elseif ")%bool.

(** [lines[i-1].trim()] ends with an opening parenthesis or a comma;
    [prev] is [None] for the first line. *)
Definition isContinuation (prev : option jsstring) : bool :=
  match prev with
  | Some p => let prevLine := trim p in (ends prevLine "(" || ends prevLine ",")%bool
  | None => false
  end.

(** One iteration of the scan, without the push onto [result]: the
    variables after the iteration and the level handed to
    [indent.repeat], [None] for an empty line (which is pushed as it is).
    Every branch of the loop body is one branch here, in the same order. *)
Definition scanLine (st : scan) (prev : option jsstring) (raw : jsstring)
  : scan * option Z :=
  let line := trim raw in
  let lvl := indentLevel st in
  if streq line [] then (st, None)
  else if isSectionStart line then
    (Scan lvl (includes line (str "equation")) (includes line (str "algorithm"))
          (controlBlocks st), Some lvl)
  else if (eqs line "end" || eqs line "end;" || eqs line "public" ||
           eqs line "protected" || isSectionStart line)%bool then
    let lvl' := if (eqs line "end" || eqs line "end;")%bool
                then Z.max 0 (lvl - 1) else lvl in
    (Scan lvl' (includes line (str "equation")) (includes line (str "algorithm"))
          (controlBlocks st), Some lvl')
  else if isClassStart line then
    (Scan (lvl + 1) (inEquation st) (inAlgorithm st) (controlBlocks st), Some lvl)
  else if (starts line "end " && negb (starts line "end if") &&
           negb (starts line "end when") && negb (starts line "end for"))%bool then
    let lvl' := Z.max 0 (lvl - 1) in
    (Scan lvl' (inEquation st) (inAlgorithm st) (controlBlocks st), Some lvl')
  else if (inEquation st || inAlgorithm st)%bool then
    if starts line "//" then (st, Some (lvl + 1))
    else if isControlStart line then
      let type := hd [] (split sp line) in
      (Scan (lvl + 1) (inEquation st) (inAlgorithm st)
            (Frame type (lvl + 1) :: controlBlocks st), Some (lvl + 1))
    else if isElse line then
      match controlBlocks st with
      | top :: _ =>
          (Scan (level top) (inEquation st) (inAlgorithm st) (controlBlocks st),
           Some (level top))
      | [] => (st, Some lvl)
      end
    else if isControlEnd line then
      match controlBlocks st with
      | _ :: below =>
          (Scan (lvl - 1) (inEquation st) (inAlgorithm st) below, Some (lvl - 1))
      | [] => (st, Some lvl)
      end
    else if isContinuation prev then (st, Some (lvl + 2))
    else if starts line "//" then (st, Some (lvl + 1))
    else (st, Some (lvl + 1))
  else (st, Some lvl).

(** [result.push(indent.repeat(level) + line)], or [result.push('')]. *)
Definition emit (indent : jsstring) (lvl : option Z) (line : jsstring)
  : result jsstring :=
  match lvl with
  | Some n => pad <- jsRepeat indent n ;; Ok (pad ++ line)
  | None => Ok []
  end.

(** The loop over the lines; [prev] is [lines[i-1]]. *)
Fixpoint indentLines (indent : jsstring) (st : scan) (prev : option jsstring)
    (lines : list jsstring) : result (list jsstring) :=
  match lines with
  | [] => Ok []
  | raw :: more =>
      let (st', lvl) := scanLine st prev raw in
      out <- emit indent lvl (trim raw) ;;
      outs <- indentLines indent st' (Some raw) more ;;
      Ok (out :: outs)
  end.

(** The variables of the scan after the given lines, when no iteration
    has thrown. *)
Fixpoint scanLines (st : scan) (prev : option jsstring)
    (lines : list jsstring) : scan :=
  match lines with
  | [] => st
  | raw :: more => scanLines (fst (scanLine st prev raw)) (Some raw) more
  end.

(** *** Stage 3: the substitutions on the whole text (source lines 187-229) *)

(** [text.replace(/\n{3,}/g, '\n\n')] *)
Definition collapseBlankLines (text : jsstring) : jsstring :=
  replaceAll Pat.blankLines [tnl; tnl] text.

Definition normalize (text : jsstring) : jsstring :=
  let text := replaceAll Pat.within [txt "within "; cap 1; txt ";"] text in
  let text := replaceAll Pat.withinLine [PMatch; tnl] text in
  let text := replaceAll Pat.comma [txt ", "] text in
  let text := replaceAll Pat.operator [txt " "; cap 1; txt " "] text in
  let text := replaceAll Pat.subtraction [cap 1; txt " - "] text in
  let text := replaceAll Pat.negativeLiteral [cap 1; txt "-"; cap 2] text in
  let text := replaceAll Pat.negation [cap 1; txt "-"; cap 2] text in
  let text := replaceAll Pat.exponentMinus [cap 1; txt "-"; cap 2] text in
  let text := replaceAll Pat.annotation [txt "annotation("] text in
  let text := replaceAll Pat.bareColon [txt "[:]"] text in
  let text := replaceAll Pat.range [cap 1; txt ":"; cap 2] text in
  let text := replaceAll Pat.indexRange [cap 1; txt "["; cap 2; txt ":"; cap 3; txt "]"] text in
  let text := replaceAll Pat.indexColon [cap 1; txt "[:]"] text in
  let text := replaceAll Pat.forRange [txt "for "; cap 1; txt " in "; cap 2; txt ":"; cap 3] text in
  let text := replaceAll Pat.bracketMinus [txt "[-"; cap 1] text in
  let text := replaceAll Pat.braceMinus [txt "{-"; cap 1] text in
  let text := replaceAll Pat.prefixKeyword [cap 1; txt " "] text in
  let text := collapseBlankLines text in
  replaceAll Pat.sectionHeader [cap 1; tnl; tnl] text.

(** *** Stage 4: the second pass over the lines (source lines 232-282) *)

(** The variables of the pass ([controlStack] is declared by the source
    and never read or written). *)
Record pass : Type := Pass {
  inEqSection : bool;
  eqIndentLevel : float
}.

Definition passStart : pass := Pass false (num 0).

Definition isSectionEnd (line : jsstring) : bool :=
  (eqs line "end" || eqs line "end;" || eqs line "public" || eqs line "protected")%bool.

Definition isThenHeader (line : jsstring) : bool :=
  ((starts line "if " || starts line "when ") && ends line "then")%bool.

(** [' '.repeat((eqIndentLevel + 1) * tabWidth) + line] *)
Definition reindent (tabWidth : Z) (st : pass) (line : jsstring)
  : result jsstring :=
  pad <- jsRepeatNum [sp]
           (PrimFloat.mul (PrimFloat.add (eqIndentLevel st) (num 1))
                          (num tabWidth)) ;;
  Ok (pad ++ line).

(** [finalLines[i].match(/^\s*/)[0]]. The pattern matches every string
    (lemma [leadingSpace_matches] below), so the match is never null. *)
Definition leadingWhitespace (raw : jsstring) : jsstring :=
  match matchStart Pat.leadingSpace raw with
  | Some m => m
  | None => []
  end.

(** [indent.length / tabWidth] *)
Definition headerLevel (tabWidth : Z) (raw : jsstring) : float :=
  PrimFloat.div (num (Z.of_nat (length (leadingWhitespace raw)))) (num tabWidth).

(** One iteration: the variables after it and the new [finalLines[i]]. *)
Definition correctLine (tabWidth : Z) (st : pass) (raw : jsstring)
  : result (pass * jsstring) :=
  let line := trim raw in
  if isSectionStart line then
    Ok (Pass true (headerLevel tabWidth raw), raw)
  else if (inEqSection st && isSectionEnd line)%bool then
    Ok (Pass false (eqIndentLevel st), raw)
  else if inEqSection st then
    if isThenHeader line then
      out <- reindent tabWidth st line ;; Ok (st, out)
    else if isElse line then
      out <- reindent tabWidth st line ;; Ok (st, out)
    else if isControlEnd line then
      out <- reindent tabWidth st line ;; Ok (st, out)
    else Ok (st, raw)
  else Ok (st, raw).

Fixpoint correctLines (tabWidth : Z) (st : pass) (finalLines : list jsstring)
  : result (list jsstring) :=
  match finalLines with
  | [] => Ok []
  | raw :: more =>
      r <- correctLine tabWidth st raw ;;
      outs <- correctLines tabWidth (fst r) more ;;
      Ok (snd r :: outs)
  end.

(** *** Stage 5: the last substitutions (source lines 285-304) *)

Definition cleanup (text : jsstring) : jsstring :=
  let text := replaceAll Pat.brokenComment [txt "//"] text in
  let text := replaceAll Pat.spacedMinus [txt " -"; cap 1] text in
  let text := replaceAll Pat.parenMinus [txt "(-"; cap 1] text in
  let text := replaceAll Pat.bracketMinus1 [txt "[-"; cap 1] text in
  let text := replaceAll Pat.commaMinus [txt ", -"; cap 1] text in
  let text := replaceAll Pat.equalsMinus [txt "= -"; cap 1] text in
  let text := replaceAll Pat.exponentMinus [cap 1; txt "-"; cap 2] text in
  let text := replaceAll Pat.exponentPlus [cap 1; txt "+"; cap 2] text in
  let text := replaceAll Pat.nUniShcMinus [txt "nUniShc-"; cap 1] text in
  let text := replaceAll Pat.parenNUniShcMinus [txt "(nUniShc-"; cap 1] text in
  let text := replaceAll Pat.timesMinus [txt " *-"; cap 1] text in
  let text := replaceAll Pat.divMinus [txt " /-"; cap 1] text in
  let text := replaceAll Pat.nUniShcRat0 [txt "(nUniShc-"; cap 1; txt " + ratCycShc)"] text in
  replaceAll Pat.nUniMinusParen [txt "("; cap 1; txt "-1)"] text.

(** *** [formatModelica(text, options)] *)

Definition formatModelica (text : jsstring) (options : Options)
  : result jsstring :=
  let tabWidth := orDefault (tabWidth options) 2 in
  let printWidth := orDefault (printWidth options) 80 in
  indent <- jsRepeat [sp] tabWidth ;;
  let text := replaceAll Pat.crlf [tnl] text in
  let text := replaceAll Pat.brokenComment [txt "//"] text in
  let lines := map preprocessLine (split nl text) in
  result <- indentLines indent scanStart None lines ;;
  let text := normalize (join nl result) in
  finalLines <- correctLines tabWidth passStart (split nl text) ;;
  Ok (cleanup (join nl finalLines)).

Definition defaultOptions : Options :=
  {| tabWidth := Some 2; printWidth := Some 80 |}.

(** Lines of an example, joined by line feeds. *)
Definition text (lines : list string) : jsstring := join nl (map str lines).

(** ** Notions used in the statements *)

(** A line that the second pass re-indents: an [if]/[when] header ending
    in [then], an [else]/[elseif] line, or an [end if]/[end when]/
    [end for] line. *)
Definition isControlLine (line : jsstring) : bool :=
  (isThenHeader line || isElse line || isControlEnd line)%bool.

(** The variables of the second pass after one line, and after a list of
    lines. *)
Definition passStep (tabWidth : Z) (st : pass) (raw : jsstring) : pass :=
  let line := trim raw in
  if isSectionStart line then Pass true (headerLevel tabWidth raw)
  else if (inEqSection st && isSectionEnd line)%bool
       then Pass false (eqIndentLevel st)
       else st.

Fixpoint passLines (tabWidth : Z) (st : pass) (lines : list jsstring) : pass :=
  match lines with
  | [] => st
  | raw :: more => passLines tabWidth (passStep tabWidth st raw) more
  end.

(** The count that the second pass hands to [repeat] in the section
    opened by the header line [hdr]:
    [(indent.length / tabWidth + 1) * tabWidth]. *)
Definition padCount (tabWidth : Z) (hdr : jsstring) : float :=
  PrimFloat.mul (PrimFloat.add (headerLevel tabWidth hdr) (num 1))
                (num tabWidth).

(** The count for a header at a whole level [k] is [(k + 1) * tabWidth],
    for the tab widths 1..[maxWidth] and the levels 0..[maxLevel]. *)
Definition wholeLevelsUpTo (maxWidth maxLevel : nat) : bool :=
  forallb (fun tw =>
    forallb (fun k =>
      match toIntegerOrInfinity
              (padCount (Z.of_nat tw) (repeat sp (k * tw) ++ str "equation")) with
      | Some n => n =? Z.of_nat ((k + 1) * tw)
      | None => false
      end) (List.seq 0 (S maxLevel)))
    (List.seq 1 maxWidth).

(** The test of source line 113: a section is active. *)
Definition sectionActive (st : scan) : bool :=
  (inEquation st || inAlgorithm st)%bool.

(** The search of the rule for empty lines, from a position on. *)
Definition collapseFrom : nat -> option ascii -> jsstring -> jsstring :=
  replaceFrom Pat.blankLines [tnl; tnl].

(** What the rule for empty lines leaves of a run of [k] line feeds. *)
Definition collapsedRun (k : nat) : jsstring :=
  if Nat.leb 3 k then [nl; nl] else repeat nl k.

(** ** Kinds of line in the scan *)

(** The test of source lines 105-106: an [end X] that ends a class. *)
Definition isClassEnd (line : jsstring) : bool :=
  (starts line "end " && negb (starts line "end if") &&
   negb (starts line "end when") && negb (starts line "end for"))%bool.

(** The test of source line 84: a bare [end]. *)
Definition isBareEnd (line : jsstring) : bool :=
  (eqs line "end" || eqs line "end;")%bool.

(** A line on which the scan lowers [indentLevel] with [Math.max]. *)
Definition lowersLevel (line : jsstring) : bool :=
  (isBareEnd line || isClassEnd line)%bool.

(** A line that none of the keyword tests of the scan recognises: an
    empty line, a comment, a statement, a declaration. *)
Definition isPlain (line : jsstring) : bool :=
  negb (isSectionStart line || isSectionEnd line || isClassStart line ||
        isClassEnd line || isControlStart line || isElse line ||
        isControlEnd line)%bool.

(** Every frame of the stack lies at a level that is at least its height
    in the stack. *)
Fixpoint framesOk (fs : list frame) : Prop :=
  match fs with
  | [] => True
  | f :: below => Z.of_nat (length fs) <= level f /\ framesOk below
  end.

(** The level is at least the height of the stack, and the frames are
    in order. *)
Definition scanOk (st : scan) : Prop :=
  Z.of_nat (length (controlBlocks st)) <= indentLevel st /\
  framesOk (controlBlocks st).

(** The text holds three line feeds in a row. *)
Definition hasBlankRun (s : jsstring) : bool := includes s [nl; nl; nl].

(** ** Characters that a pattern cannot match without *)

(** Every match of the pattern takes at least one character of the
    class [P]. *)
Fixpoint needs (P : ascii -> bool) (r : regex) : Prop :=
  match r with
  | RChar c => P c = true
  | RSet p => forall x, p x = true -> P x = true
  | RSeq a b => needs P a \/ needs P b
  | RAlt a b => needs P a /\ needs P b
  | RRep p lo _ => (1 <= lo)%nat /\ forall x, p x = true -> P x = true
  | RGroup _ a => needs P a
  | _ => False
  end.

(** The minus sign; the characters on which the last stage acts. *)
Definition isMinus (c : ascii) : bool := Ascii.eqb c "-"%char.
Definition isSign (c : ascii) : bool :=
  (Ascii.eqb c "-"%char || Ascii.eqb c "+"%char || Ascii.eqb c "/"%char)%bool.

(** The characters of which every pattern of the formatter needs one to
    match, the patterns of the rule for empty lines and of the rule for
    section headers apart. *)
Definition ruleChar (x : ascii) : bool :=
  (existsb (Ascii.eqb x) (str "w,+*/=<>-([{:pc") || Ascii.eqb x cr)%bool.

(** Every keyword of the rule for section headers holds one of these. *)
Definition headerChar (x : ascii) : bool :=
  existsb (Ascii.eqb x) (str "ap").

(** A character on which no substitution of the formatter acts: any
    character but [a c p w , + * / = < > - ( [ { :], the carriage return
    and the line feed. *)
Definition harmless (x : ascii) : bool :=
  negb (ruleChar x || headerChar x || isNl x)%bool.

(** A statement on which the formatter changes the indentation only: a
    line of harmless characters that is not empty, has no white space at
    its ends, and is recognised by none of the keyword tests. *)
Definition isStatement (s : jsstring) : bool :=
  (forallb harmless s && negb (streq s []) && streq (trim s) s &&
   isPlain s)%bool.

(** The lines that may stand between the opening line of a control block
    and a line of that block: plain lines, [else]/[elseif] lines, and
    whole blocks with such lines in them, nested to any depth. *)
Inductive blockBody : list jsstring -> Prop :=
| body_end : blockBody []
| body_plain : forall raw more,
    isPlain (trim raw) = true -> blockBody more -> blockBody (raw :: more)
| body_else : forall raw more,
    isElse (trim raw) = true -> blockBody more -> blockBody (raw :: more)
| body_block : forall opener inner closer more,
    isControlStart (trim opener) = true -> blockBody inner ->
    isControlEnd (trim closer) = true -> blockBody more ->
    blockBody (opener :: inner ++ closer :: more).

(** * The manifest synchronisation script

    The script reads [package.json] and [tree-sitter.json], copies the
    properties [version], [license] and [description] of the first into
    the [metadata] object of the second where they differ, and writes the
    second back when something has changed. The run of the script is
    embedded from after the two [JSON.parse] calls to before
    [JSON.stringify]: both documents are objects (not arrays), an object
    is the list of its properties in insertion order, and the result says
    what the script holds in memory, what it has pushed on [changes] and
    whether it calls [writeFileSync]. What a later run reads back from
    the written file is [reread] below. *)

Module Sync.

Local Unset Elimination Schemes.

(** The values of the engine that can occur. *)
Inductive value : Type :=
| VUndefined
| VNull
| VBool (b : bool)
| VNum (x : float)
| VStr (s : jsstring)
| VArr (items : list value)
| VObj (props : list (jsstring * value)).

Local Set Elimination Schemes.

(** [o[k]] on the properties of an object. *)
Fixpoint get (props : list (jsstring * value)) (k : jsstring) : value :=
  match props with
  | [] => VUndefined
  | (k', v) :: more => if streq k' k then v else get more k
  end.

(** [o[k] = v]: an own property keeps its place, a new one goes last. *)
Fixpoint set (props : list (jsstring * value)) (k : jsstring) (v : value)
  : list (jsstring * value) :=
  match props with
  | [] => [(k, v)]
  | (k', v') :: more =>
      if streq k' k then (k', v) :: more else (k', v') :: set more k v
  end.

(** [v.k] for one of the three keys, on a value that is not null or
    undefined: a primitive and an array have no such property. *)
Definition prop (v : value) (k : jsstring) : value :=
  match v with
  | VObj props => get props k
  | _ => VUndefined
  end.

(** [v.k = x] as [JSON.stringify] will see it: the assignment to a
    primitive is ignored (the script is not in strict mode), and a named
    property of an array is not serialised. *)
Definition setProp (v : value) (k : jsstring) (x : value) : value :=
  match v with
  | VObj props => VObj (set props k x)
  | _ => v
  end.

(** [!v] *)
Definition falsy (v : value) : bool :=
  match v with
  | VUndefined => true
  | VNull => true
  | VBool b => negb b
  | VNum x => (PrimFloat.eqb x PrimFloat.zero || negb (PrimFloat.eqb x x))%bool
  | VStr s => streq s []
  | VArr _ => false
  | VObj _ => false
  end.

(** [a !== b] for values taken from two different documents: two arrays
    or objects are never the same object. *)
Definition strictNe (a b : value) : bool :=
  negb match a, b with
       | VUndefined, VUndefined => true
       | VNull, VNull => true
       | VBool x, VBool y => Bool.eqb x y
       | VNum x, VNum y => PrimFloat.eqb x y
       | VStr x, VStr y => streq x y
       | _, _ => false
       end.

(** An entry of [changes]: the key, the old value as the message shows
    it ([old || '(none)']) and the new value. *)
Record change : Type := Change {
  field : jsstring;
  shown : value;
  new : value
}.

(** One of the three [if] statements (source lines 23-38). *)
Definition syncField (k : jsstring) (packageJson : list (jsstring * value))
    (st : list (jsstring * value) * list change)
  : list (jsstring * value) * list change :=
  let (treeSitterJson, changes) := st in
  let metadata := get treeSitterJson (str "metadata") in
  if strictNe (prop metadata k) (get packageJson k) then
    (set treeSitterJson (str "metadata")
         (setProp metadata k (get packageJson k)),
     changes ++
       [Change k
          (if falsy (prop metadata k) then VStr (str "(none)")
           else prop metadata k)
          (get packageJson k)])
  else st.

(** Source lines 15-17: a missing [metadata] becomes the empty object. *)
Definition ensureMetadata (treeSitterJson : list (jsstring * value))
  : list (jsstring * value) :=
  if falsy (get treeSitterJson (str "metadata"))
  then set treeSitterJson (str "metadata") (VObj [])
  else treeSitterJson.

Definition keys : list jsstring :=
  [str "version"; str "license"; str "description"].

(** The script: the document in memory at the end, [changes], and
    whether the document is written ([changes.length > 0]). *)
Definition sync (packageJson treeSitterJson : list (jsstring * value))
  : list (jsstring * value) * list change * bool :=
  let treeSitterJson := ensureMetadata treeSitterJson in
  let st := (treeSitterJson, []) in
  let st := syncField (str "version") packageJson st in
  let st := syncField (str "license") packageJson st in
  let st := syncField (str "description") packageJson st in
  (fst st, snd st, Nat.ltb 0 (length (snd st))).

(** The value is a string, a number, a boolean, null or undefined, as
    [JSON.parse] gives them (no NaN). *)
Definition primitive (v : value) : bool :=
  match v with
  | VArr _ => false
  | VObj _ => false
  | VNum x => PrimFloat.eqb x x
  | _ => true
  end.

(** [metadata] can hold the three properties: it is an object, or it is
    missing or falsy and the script replaces it. *)
Definition storable (v : value) : bool :=
  match v with
  | VObj _ => true
  | _ => falsy v
  end.

(** [JSON.parse(JSON.stringify(v))], what is read back after [v] has
    been written: a property whose value is undefined is left out, an
    undefined element of an array and a number that is not finite become
    null, minus zero becomes zero, everything else is read back as it
    was. (At the top [JSON.stringify(undefined)] is undefined; this case
    is not reached below an object or an array.) *)
Fixpoint reread (v : value) : value :=
  match v with
  | VUndefined => VUndefined
  | VNull => VNull
  | VBool b => VBool b
  | VNum x =>
      if PrimFloat.is_finite x
      then VNum (if PrimFloat.eqb x PrimFloat.zero then PrimFloat.zero else x)
      else VNull
  | VStr s => VStr s
  | VArr items =>
      VArr (map (fun x => match x with
                          | VUndefined => VNull
                          | _ => reread x
                          end) items)
  | VObj props =>
      VObj (flat_map (fun kv => match kv with
                                | (k, VUndefined) => []
                                | (k, x) => [(k, reread x)]
                                end) props)
  end.

(** The same for the properties of a document. *)
Definition rereadProps (props : list (jsstring * value))
  : list (jsstring * value) :=
  flat_map (fun kv => match kv with
                      | (k, VUndefined) => []
                      | (k, x) => [(k, reread x)]
                      end) props.

(** No two properties of the list have the same name, as in every
    object of the engine. *)
Fixpoint distinct (props : list (jsstring * value)) : bool :=
  match props with
  | [] => true
  | (k, _) :: more =>
      (negb (existsb (fun kv => streq (fst kv) k) more) && distinct more)%bool
  end.

Definition wellFormed (v : value) : bool :=
  match v with
  | VObj props => distinct props
  | _ => true
  end.

(** A value that is read back as it was written, up to [===]: a string,
    a finite number, a boolean, null, or undefined (the property is
    absent before and after). *)
Definition writable (v : value) : bool :=
  match v with
  | VArr _ => false
  | VObj _ => false
  | VNum x => PrimFloat.is_finite x
  | _ => true
  end.

(** What the next run of the script reads from [tree-sitter.json]: what
    this run has written, if it has written, and the document as it was
    otherwise. *)
Definition onDisk (packageJson treeSitterJson : list (jsstring * value))
  : list (jsstring * value) :=
  if snd (sync packageJson treeSitterJson)
  then rereadProps (fst (fst (sync packageJson treeSitterJson)))
  else treeSitterJson.

End Sync.

(** * Properties *)

(** ** Runs of the formatter on concrete texts *)

(** C1. The claim that [formatModelica] never throws fails on the code:
    on an [end if] met at indent level 0 with a frame still on the stack
    (the class terminator [end A;] has lowered the level, the stack is
    untouched) the unguarded [indentLevel--] makes the level -1 and
    [indent.repeat(-1)] throws a RangeError. *)
Theorem formatModelica_throws_on_end_if_at_level_0 :
  formatModelica (text ["equation"; "if x then"; "end A;"; "end if"])
                 defaultOptions
  = Throw RangeError.
Proof. vm_compute. reflexivity. Qed.

(** C2. The claim that the indent level is never negative fails on the
    code: after the lines [equation], [if x then], [end A;], [end if] the
    variable [indentLevel] is 0, 1, 0 and then -1, the decrement of the
    [end if] branch being the one decrement of the scan that is not
    clamped. *)
Theorem indentLevel_negative_after_end_if :
  map (fun n =>
         indentLevel
           (scanLines scanStart None
              (firstn n
                 (map preprocessLine
                    (split nl
                       (text ["equation"; "if x then"; "end A;"; "end if"]))))))
      [1; 2; 3; 4]%nat
  = [0; 1; 0; -1].
Proof. vm_compute. reflexivity. Qed.

(** C3. The claim of idempotence fails on the code: the output for the
    text [equation / x] has one empty line after the section header, and
    formatting that output again puts a second one there. *)
Theorem formatModelica_not_idempotent :
  formatModelica (text ["equation"; "x"]) defaultOptions
    = Ok (text ["equation"; ""; "  x"]) /\
  formatModelica (text ["equation"; ""; "  x"]) defaultOptions
    = Ok (text ["equation"; ""; ""; "  x"]) /\
  text ["equation"; ""; ""; "  x"] <> text ["equation"; ""; "  x"].
Proof.
  repeat split; try (vm_compute; reflexivity).
  vm_compute. discriminate.
Qed.

(** C5. Of the three examples of the minus sign, the first fails on the
    code: [x = 1 - 2;] comes out as [x = 1 -2;], because the rule for
    negative literals also matches the space, minus, space, digit that
    the subtraction rule has just produced. The other two examples hold:
    [x = -1;] is unchanged and the exponent of [1e-5] keeps its sign
    without inner space. *)
Theorem minus_sign_examples :
  formatModelica (text ["x = 1 - 2;"]) defaultOptions = Ok (str "x = 1 -2;") /\
  formatModelica (text ["x = -1;"]) defaultOptions = Ok (str "x = -1;") /\
  formatModelica (text ["1e-5"]) defaultOptions = Ok (str "1e-5") /\
  formatModelica (text ["x = 1e-5;"]) defaultOptions = Ok (str "x = 1e-5;").
Proof. repeat split; vm_compute; reflexivity. Qed.

(** C9. The output does not depend on [printWidth]: two option records
    with the same [tabWidth] give the same result, whatever their
    [printWidth] (here also when it is absent). *)
Theorem formatModelica_ignores_printWidth :
  forall (text : jsstring) (tw pw1 pw2 : option Z),
    formatModelica text {| tabWidth := tw; printWidth := pw1 |}
    = formatModelica text {| tabWidth := tw; printWidth := pw2 |}.
Proof. intros. reflexivity. Qed.

(** C10. The operator rule takes each of [+ * / = < >] alone: two of
    them side by side get a space on both sides each (all 36 pairs), so
    the compound operators are split: [x >= y] comes out as [x >  = y],
    [x <= y] as [x <  = y], and the assignment [x := 1;] as [x : = 1;],
    also inside an algorithm section. *)
Theorem compound_operators_are_split :
  forallb (fun c1 =>
    forallb (fun c2 =>
      streq (replaceAll Pat.operator [txt " "; cap 1; txt " "]
               (str "x" ++ [c1; c2] ++ str "y"))
            (str "x " ++ [c1] ++ str "  " ++ [c2] ++ str " y"))
      (str "+*/=<>")) (str "+*/=<>") = true /\
  replaceAll Pat.operator [txt " "; cap 1; txt " "] (str "x >= y") = str "x >  = y" /\
  formatModelica (text ["x >= y"]) defaultOptions = Ok (str "x >  = y") /\
  formatModelica (text ["x <= y"]) defaultOptions = Ok (str "x <  = y") /\
  formatModelica (text ["x := 1;"]) defaultOptions = Ok (str "x : = 1;") /\
  formatModelica (text ["algorithm"; "x := 1;"]) defaultOptions
    = Ok (text ["algorithm"; ""; "  x : = 1;"]).
Proof. repeat split; vm_compute; reflexivity. Qed.

(** ** The second pass *)

Lemma streq_eq : forall a b, streq a b = true -> a = b.
Proof.
  induction a as [|x a IH]; destruct b as [|y b]; simpl; try discriminate; auto.
  intros H. apply andb_prop in H. destruct H as [Hxy Hab].
  apply Ascii.eqb_eq in Hxy. subst y. f_equal. auto.
Qed.

Lemma isSectionStart_cases : forall line,
  isSectionStart line = true ->
  line = str "equation" \/ line = str "initial equation" \/
  line = str "algorithm" \/ line = str "initial algorithm".
Proof.
  intros line H. unfold isSectionStart, eqs in H.
  repeat (apply orb_prop in H; destruct H as [H|H]);
    apply streq_eq in H; auto.
Qed.

Lemma isSectionEnd_cases : forall line,
  isSectionEnd line = true ->
  line = str "end" \/ line = str "end;" \/
  line = str "public" \/ line = str "protected".
Proof.
  intros line H. unfold isSectionEnd, eqs in H.
  repeat (apply orb_prop in H; destruct H as [H|H]);
    apply streq_eq in H; auto.
Qed.

(** The three kinds of line of the pass exclude one another. *)
Lemma controlLine_not_section : forall line,
  isControlLine line = true ->
  isSectionStart line = false /\ isSectionEnd line = false.
Proof.
  intros line H. split.
  - destruct (isSectionStart line) eqn:E; [|reflexivity].
    apply isSectionStart_cases in E.
    destruct E as [E|[E|[E|E]]]; subst line; vm_compute in H; discriminate.
  - destruct (isSectionEnd line) eqn:E; [|reflexivity].
    apply isSectionEnd_cases in E.
    destruct E as [E|[E|[E|E]]]; subst line; vm_compute in H; discriminate.
Qed.

Lemma correctLine_header : forall tw st raw,
  isSectionStart (trim raw) = true ->
  correctLine tw st raw = Ok (Pass true (headerLevel tw raw), raw).
Proof. intros tw st raw H. unfold correctLine. rewrite H. reflexivity. Qed.

Lemma correctLine_control : forall tw st raw,
  inEqSection st = true ->
  isControlLine (trim raw) = true ->
  correctLine tw st raw = (out <- reindent tw st (trim raw) ;; Ok (st, out)).
Proof.
  intros tw st raw Hin H.
  destruct (controlLine_not_section _ H) as [Hs He].
  unfold correctLine. rewrite Hs, He, Hin. simpl andb. cbv iota.
  unfold isControlLine in H.
  destruct (isThenHeader (trim raw)); [reflexivity|].
  destruct (isElse (trim raw)); [reflexivity|].
  destruct (isControlEnd (trim raw)); [reflexivity|discriminate].
Qed.

Lemma correctLine_fst : forall tw st raw r,
  correctLine tw st raw = Ok r -> fst r = passStep tw st raw.
Proof.
  intros tw st raw r. unfold correctLine, passStep.
  destruct (isSectionStart (trim raw)).
  { intros H. inversion H. reflexivity. }
  destruct (inEqSection st && isSectionEnd (trim raw))%bool.
  { intros H. inversion H. reflexivity. }
  destruct (inEqSection st).
  2:{ intros H. inversion H. reflexivity. }
  destruct (isThenHeader (trim raw)); [|destruct (isElse (trim raw));
    [|destruct (isControlEnd (trim raw))]];
    try (destruct (reindent tw st (trim raw)); simpl; intros H; inversion H;
         reflexivity).
Qed.

(** The pass over a concatenation of lines. *)
Lemma correctLines_app : forall tw a b st,
  correctLines tw st (a ++ b) =
  (oa <- correctLines tw st a ;;
   ob <- correctLines tw (passLines tw st a) b ;;
   Ok (oa ++ ob)).
Proof.
  induction a as [|x a IH]; intros b st.
  - simpl. destruct (correctLines tw st b); reflexivity.
  - simpl. destruct (correctLine tw st x) as [r|e] eqn:E; simpl; [|reflexivity].
    rewrite (correctLine_fst _ _ _ _ E) in *. rewrite IH.
    destruct (correctLines tw (passStep tw st x) a); simpl; [|reflexivity].
    destruct (correctLines tw (passLines tw (passStep tw st x) a) b);
      reflexivity.
Qed.

(** Lines that neither open nor close a section leave the variables of
    the pass as they are. *)
Lemma passLines_body : forall tw st mid,
  Forall (fun m => isSectionStart (trim m) = false /\
                   isSectionEnd (trim m) = false) mid ->
  passLines tw st mid = st.
Proof.
  induction mid as [|m mid IH]; intros H; [reflexivity|].
  inversion H as [|? ? [Hs He] Hmid]; subst. simpl.
  unfold passStep. rewrite Hs, He, andb_false_r. auto.
Qed.

(** The output of the pass at a control line [raw] that lies in the
    section opened by the header line [hdr]. *)
Lemma correctLines_section : forall tw st pre hdr mid raw post,
  isSectionStart (trim hdr) = true ->
  Forall (fun m => isSectionStart (trim m) = false /\
                   isSectionEnd (trim m) = false) mid ->
  isControlLine (trim raw) = true ->
  correctLines tw st (pre ++ hdr :: mid ++ raw :: post) =
  (let sec := Pass true (headerLevel tw hdr) in
   o1 <- correctLines tw st pre ;;
   o2 <- correctLines tw sec mid ;;
   new <- reindent tw sec (trim raw) ;;
   o3 <- correctLines tw sec post ;;
   Ok (o1 ++ hdr :: o2 ++ new :: o3)).
Proof.
  intros tw st pre hdr mid raw post Hh Hmid Hc. cbv zeta.
  rewrite correctLines_app.
  destruct (correctLines tw st pre) as [o1|e]; simpl; [|reflexivity].
  rewrite (correctLine_header _ _ _ Hh). simpl.
  rewrite correctLines_app. rewrite (passLines_body _ _ _ Hmid).
  destruct (correctLines tw (Pass true (headerLevel tw hdr)) mid) as [o2|e];
    simpl; [|reflexivity].
  rewrite (correctLine_control tw (Pass true (headerLevel tw hdr)) raw eq_refl Hc).
  destruct (reindent tw (Pass true (headerLevel tw hdr)) (trim raw)) as [new|e];
    simpl; [|reflexivity].
  destruct (correctLines tw (Pass true (headerLevel tw hdr)) post) as [o3|e];
    simpl; reflexivity.
Qed.

(** *** Greedy runs *)

(** With nothing after it, a quantifier without upper bound takes the
    whole run of characters of its class, and fails when the run is
    shorter than its lower bound. *)
Lemma rep_run : forall p lo l n s,
  option_map (fun m => (consumed m, caps m)) (rep p lo None n l s Some) =
  if Nat.leb lo (n + length (takeWhile p l))
  then Some ((consumed s + length (takeWhile p l))%nat, caps s)
  else None.
Proof.
  induction l as [|c l IH]; intros n s; simpl.
  - rewrite !Nat.add_0_r. destruct (Nat.leb lo n); reflexivity.
  - destruct (p c); simpl.
    + specialize (IH (S n) (advance c l s)).
      rewrite Nat.add_succ_r. simpl Nat.add in IH.
      destruct (rep p lo None (S n) l (advance c l s) Some) as [m|].
      * simpl in *. rewrite IH.
        destruct (Nat.leb lo (S (n + length (takeWhile p l)))); [|reflexivity].
        simpl. rewrite Nat.add_succ_r. reflexivity.
      * simpl in IH.
        destruct (Nat.leb lo (S (n + length (takeWhile p l)))) eqn:E;
          [discriminate|].
        apply Nat.leb_gt in E.
        assert (Hn : Nat.leb lo n = false) by (apply Nat.leb_gt; lia).
        rewrite Hn. reflexivity.
    + rewrite !Nat.add_0_r. destruct (Nat.leb lo n); reflexivity.
Qed.

Lemma exec_rep : forall p lo prev input,
  exec (RRep p lo None) prev input =
  if Nat.leb lo (length (takeWhile p input))
  then Some (length (takeWhile p input), [])
  else None.
Proof.
  intros p lo prev input. unfold exec. simpl rmatch.
  pose proof (rep_run p lo input 0%nat (MState prev input 0 [])) as H.
  simpl in H.
  destruct (rep p lo None 0 input (MState prev input 0 []) Some); simpl in H;
    destruct (Nat.leb lo (length (takeWhile p input)));
    congruence.
Qed.

Lemma firstn_takeWhile : forall p s,
  firstn (length (takeWhile p s)) s = takeWhile p s.
Proof.
  induction s as [|c s IH]; simpl; [reflexivity|].
  destruct (p c); simpl; [rewrite IH|]; reflexivity.
Qed.

(** [/^\s*/] matches every string, and the match is its leading white
    space. *)
Lemma leadingSpace_matches : forall raw,
  matchStart Pat.leadingSpace raw = Some (takeWhile isSpace raw).
Proof.
  intros raw. unfold matchStart, exec. simpl rmatch.
  pose proof (rep_run isSpace 0%nat raw 0%nat (MState None raw 0 [])) as H.
  simpl in H.
  destruct (rep isSpace 0 None 0 raw (MState None raw 0 []) Some) as [m|];
    simpl in H; [|discriminate].
  injection H as Hc Hcaps. rewrite Hc, firstn_takeWhile. reflexivity.
Qed.

Lemma leadingWhitespace_takeWhile : forall raw,
  leadingWhitespace raw = takeWhile isSpace raw.
Proof.
  intros raw. unfold leadingWhitespace. rewrite leadingSpace_matches.
  reflexivity.
Qed.

Lemma concat_repeat_single : forall (c : ascii) n,
  concat (repeat [c] n) = repeat c n.
Proof. induction n; simpl; [|rewrite IHn]; reflexivity. Qed.

(** [' '.repeat(x)] is a run of spaces, as many as the integral part of
    [x]. *)
Lemma jsRepeatNum_spaces : forall x n,
  toIntegerOrInfinity x = Some n -> 0 <= n ->
  jsRepeatNum [sp] x = Ok (repeat sp (Z.to_nat n)).
Proof.
  intros x n Hx Hn. unfold jsRepeatNum, jsRepeat. rewrite Hx.
  destruct (n <? 0) eqn:E; [apply Z.ltb_lt in E; lia|].
  rewrite concat_repeat_single. reflexivity.
Qed.

(** C4. In the second pass a control line [raw] (a header ending in
    [then], an [else]/[elseif], an [end if]/[end when]/[end for]) that
    lies in the section opened by the header line [hdr] is replaced by
    the run of [(indent.length / tabWidth + 1) * tabWidth] spaces
    followed by the trimmed line, where [indent] is the leading white
    space of [hdr]; the lines [mid] between the two may be anything but
    section headers and section ends, so the depth of nesting is
    irrelevant. For a header at a whole level [k] the count is
    [(k + 1) * tabWidth] (checked for widths 1..8 and levels 0..20), and
    an [if] nested in an [if] is flattened, in the pass and in the whole
    formatter. *)
Theorem corrective_pass_rewrites_control_lines :
  (forall tw st pre hdr mid raw post,
     isSectionStart (trim hdr) = true ->
     Forall (fun m => isSectionStart (trim m) = false /\
                      isSectionEnd (trim m) = false) mid ->
     isControlLine (trim raw) = true ->
     headerLevel tw hdr
       = PrimFloat.div (num (Z.of_nat (length (takeWhile isSpace hdr)))) (num tw) /\
     correctLines tw st (pre ++ hdr :: mid ++ raw :: post) =
       (let sec := Pass true (headerLevel tw hdr) in
        o1 <- correctLines tw st pre ;;
        o2 <- correctLines tw sec mid ;;
        pad <- jsRepeatNum [sp] (padCount tw hdr) ;;
        o3 <- correctLines tw sec post ;;
        Ok (o1 ++ hdr :: o2 ++ (pad ++ trim raw) :: o3))) /\
  (forall x n, toIntegerOrInfinity x = Some n -> 0 <= n ->
     jsRepeatNum [sp] x = Ok (repeat sp (Z.to_nat n))) /\
  wholeLevelsUpTo 8 20 = true /\
  correctLines 2 passStart
    (map str ["equation"; "  if a then"; "    if b then"; "      x = 1;";
              "    end if;"; "  end if;"])
    = Ok (map str ["equation"; "  if a then"; "  if b then"; "      x = 1;";
                   "  end if;"; "  end if;"]) /\
  formatModelica
    (text ["model M"; "equation"; "if a then"; "if b then"; "x = 1;";
           "end if;"; "end if;"; "end M;"]) defaultOptions
    = Ok (text ["model M"; "  equation"; ""; "    if a then"; "    if b then";
                "        x = 1;"; "    end if;"; "    end if;"; "end M;"]).
Proof.
  split; [|split; [|split; [|split]]].
  - intros tw st pre hdr mid raw post Hh Hmid Hc. split.
    + unfold headerLevel. rewrite leadingWhitespace_takeWhile. reflexivity.
    + rewrite (correctLines_section tw st pre hdr mid raw post Hh Hmid Hc).
      cbv zeta. unfold reindent, padCount. simpl eqIndentLevel.
      destruct (correctLines tw st pre); simpl; [|reflexivity].
      destruct (correctLines tw (Pass true (headerLevel tw hdr)) mid); simpl;
        [|reflexivity].
      destruct (jsRepeatNum [sp] _); reflexivity.
  - exact jsRepeatNum_spaces.
  - vm_compute. reflexivity.
  - vm_compute. reflexivity.
  - vm_compute. reflexivity.
Qed.

(** ** The scan: the level and the stack of control blocks *)

(** X2. The extent of the unclamped decrement: from a non-negative level,
    with frames at non-negative levels, a line leaves the level and the
    emitted level non-negative, except the [end if]/[end when]/[end for]
    met at level 0 with a frame on the stack, which makes the level -1. *)
Lemma scanLine_level : forall st prev raw,
  0 <= indentLevel st ->
  Forall (fun f => 0 <= level f) (controlBlocks st) ->
  (0 <= indentLevel (fst (scanLine st prev raw)) /\
   Forall (fun f => 0 <= level f) (controlBlocks (fst (scanLine st prev raw))) /\
   match snd (scanLine st prev raw) with
   | Some n => 0 <= n
   | None => True
   end) \/
  (isControlEnd (trim raw) = true /\ sectionActive st = true /\
   controlBlocks st <> [] /\ indentLevel st = 0 /\
   indentLevel (fst (scanLine st prev raw)) = -1).
Proof.
  intros [lvl ie ia cbs] prev raw Hl Hf.
  unfold scanLine, sectionActive. cbv zeta. simpl in *.
  repeat match goal with
         | |- context [if ?b then _ else _] => destruct b eqn:?
         end;
    try (left; simpl; repeat split; try lia; auto; fail).
  - left. simpl. repeat split; try lia; auto. constructor; simpl; auto; lia.
  - destruct cbs as [|top below]; simpl.
    + left. repeat split; try lia; auto.
    + inversion Hf; subst. left. repeat split; auto.
  - destruct cbs as [|top below]; simpl.
    + left. repeat split; try lia; auto.
    + inversion Hf; subst.
      destruct (Z.eq_dec lvl 0) as [Z0|Z0].
      * right. repeat split; auto; try discriminate. lia.
      * left. repeat split; auto; lia.
Qed.

(** C6, as the code has it. The stack is empty when the scan starts, a
    line met while no section is active leaves the stack as it is, and
    so does a line that ends a section ([end], [end;], [public],
    [protected]): frames are pushed and popped only while a section is
    active, and the frames open at the end of a section stay on the
    stack. *)
Theorem controlBlocks_change_only_in_section :
  forall st prev raw,
    sectionActive st = false \/ isSectionEnd (trim raw) = true ->
    controlBlocks scanStart = [] /\
    controlBlocks (fst (scanLine st prev raw)) = controlBlocks st.
Proof.
  intros st prev raw H. split; [reflexivity|].
  destruct H as [H|H].
  - unfold sectionActive in H. unfold scanLine. cbv zeta. rewrite H.
    repeat match goal with
           | |- context [if ?b then _ else _] => destruct b
           end; reflexivity.
  - unfold scanLine. cbv zeta.
    apply isSectionEnd_cases in H.
    destruct H as [H|[H|[H|H]]]; rewrite H; reflexivity.
Qed.

(** C6 as stated fails on the code: after [equation], [if x then], [end]
    no section is active and the frame of the [if] is still on the
    stack; the formatter returns normally on this text. *)
Lemma controlBlocks_nonempty_outside_section :
  sectionActive
    (scanLines scanStart None [str "equation"; str "if x then"; str "end"])
    = false /\
  controlBlocks
    (scanLines scanStart None [str "equation"; str "if x then"; str "end"])
    = [Frame (str "if") 1] /\
  formatModelica (text ["equation"; "if x then"; "end"]) defaultOptions
    = Ok (text ["equation"; ""; "  if x then"; "end"]).
Proof. repeat split; vm_compute; reflexivity. Qed.

(** ** The rule for empty lines *)

Lemma exec_blankLines : forall prev s,
  exec Pat.blankLines prev s =
  if Nat.leb 3 (length (takeWhile isNl s))
  then Some (length (takeWhile isNl s), [])
  else None.
Proof. intros. unfold Pat.blankLines. apply exec_rep. Qed.

(** The search does not look at the character before the position. *)
Lemma collapseFrom_prev : forall skip p1 p2 s,
  collapseFrom skip p1 s = collapseFrom skip p2 s.
Proof.
  intros skip p1 p2 s. unfold collapseFrom.
  destruct skip, s; simpl; rewrite ?exec_blankLines; reflexivity.
Qed.

Lemma collapseFrom_other : forall prev c s,
  c <> nl -> collapseFrom 0%nat prev (c :: s) = c :: collapseFrom 0%nat None s.
Proof.
  intros prev c s Hc. unfold collapseFrom. simpl replaceFrom.
  rewrite exec_blankLines. simpl takeWhile.
  assert (E : isNl c = false).
  { unfold isNl. apply Ascii.eqb_neq. congruence. }
  rewrite E. simpl. f_equal. apply collapseFrom_prev.
Qed.

Lemma collapseFrom_skip : forall u v prev,
  collapseFrom (length u) prev (u ++ v) = collapseFrom 0%nat None v.
Proof.
  induction u as [|c u IH]; intros v prev; simpl.
  - apply collapseFrom_prev.
  - unfold collapseFrom in *. simpl. apply IH.
Qed.

Lemma takeWhile_run : forall k u,
  hd sp u <> nl -> takeWhile isNl (repeat nl k ++ u) = repeat nl k.
Proof.
  intros k u Hu. induction k as [|k IH]; simpl.
  - destruct u as [|c u]; [reflexivity|]. simpl in *.
    assert (E : isNl c = false).
    { unfold isNl. apply Ascii.eqb_neq. congruence. }
    rewrite E. reflexivity.
  - change (isNl nl) with true. cbv iota. rewrite IH. reflexivity.
Qed.

Lemma collapseFrom_run : forall k u prev,
  hd sp u <> nl ->
  collapseFrom 0%nat prev (repeat nl k ++ u) = collapsedRun k ++ collapseFrom 0%nat None u.
Proof.
  intros k u prev Hu. unfold collapsedRun.
  destruct (Nat.leb 3 k) eqn:E.
  - destruct k as [|k]; [discriminate|].
    unfold collapseFrom. simpl repeat. simpl app. simpl replaceFrom.
    rewrite exec_blankLines.
    change (nl :: repeat nl k ++ u) with (repeat nl (S k) ++ u).
    rewrite (takeWhile_run (S k) u Hu), repeat_length, E.
    simpl. f_equal. f_equal.
    rewrite <- (repeat_length nl k) at 1. apply collapseFrom_skip.
  - apply Nat.leb_gt in E. revert prev.
    induction k as [|k IH]; intros prev; simpl.
    + apply collapseFrom_prev.
    + unfold collapseFrom. simpl replaceFrom. rewrite exec_blankLines.
      change (nl :: repeat nl k ++ u) with (repeat nl (S k) ++ u).
      rewrite (takeWhile_run (S k) u Hu), repeat_length.
      assert (E3 : Nat.leb 3 (S k) = false) by (apply Nat.leb_gt; lia).
      rewrite E3. simpl. f_equal. apply IH. lia.
Qed.

Lemma run_split : forall s,
  s = repeat nl (length (takeWhile isNl s)) ++ dropWhile isNl s /\
  hd sp (dropWhile isNl s) <> nl.
Proof.
  induction s as [|c s [IH1 IH2]]; simpl.
  - split; [reflexivity|]. vm_compute. discriminate.
  - destruct (isNl c) eqn:E.
    + unfold isNl in E. apply Ascii.eqb_eq in E. subst c. simpl.
      split; [f_equal; exact IH1|exact IH2].
    + simpl. split; [reflexivity|].
      unfold isNl in E. apply Ascii.eqb_neq in E. congruence.
Qed.

Lemma last_app_cons : forall (a : jsstring) c b d,
  last (a ++ c :: b) d = last (c :: b) d.
Proof.
  induction a as [|x a IH]; intros; [reflexivity|].
  simpl app. rewrite <- (IH c b d).
  destruct (a ++ c :: b) eqn:E; [destruct a; discriminate|reflexivity].
Qed.

(** A run of three or more line feeds between a text that does not end
    in a line feed and one that does not begin with one. *)
Lemma collapseFrom_around_run : forall n pre k post,
  (length pre <= n)%nat ->
  (3 <= k)%nat ->
  last pre sp <> nl ->
  hd sp post <> nl ->
  collapseFrom 0%nat None (pre ++ repeat nl k ++ post) =
  collapseFrom 0%nat None pre ++ [nl; nl] ++ collapseFrom 0%nat None post.
Proof.
  induction n as [|n IH]; intros pre k post Hlen Hk Hpre Hpost.
  - destruct pre; [|simpl in Hlen; lia]. simpl app.
    rewrite (collapseFrom_run k post None Hpost). unfold collapsedRun.
    assert (E : Nat.leb 3 k = true) by (apply Nat.leb_le; exact Hk).
    rewrite E. reflexivity.
  - destruct pre as [|c pre].
    { apply (IH [] k post); simpl; auto. lia. }
    destruct (run_split (c :: pre)) as [Hs Hd].
    remember (length (takeWhile isNl (c :: pre))) as j.
    destruct (dropWhile isNl (c :: pre)) as [|d u] eqn:Eu.
    { exfalso. apply Hpre. rewrite Hs, app_nil_r.
      destruct j; [discriminate|].
      clear. induction j; [reflexivity|]. simpl in *. exact IHj. }
    assert (Hdn : d <> nl) by exact Hd.
    rewrite Hs. rewrite <- app_assoc.
    assert (Hu1 : hd sp ((d :: u) ++ repeat nl k ++ post) <> nl) by exact Hd.
    rewrite (collapseFrom_run j _ None Hu1), (collapseFrom_run j (d :: u) None Hd).
    rewrite <- app_assoc. f_equal.
    simpl app. rewrite !(collapseFrom_other None d _ Hdn). simpl. f_equal.
    apply IH; auto.
    + assert (L : length (c :: pre) = (j + S (length u))%nat).
      { rewrite Hs at 1. rewrite length_app, repeat_length. reflexivity. }
      simpl in L. simpl in Hlen. lia.
    + destruct u as [|e u]; [vm_compute; discriminate|].
      rewrite Hs in Hpre. rewrite last_app_cons in Hpre. exact Hpre.
Qed.


(** ** Instances *)

Lemma corrective_pass_rewrites_control_lines_witness :
  headerLevel 2 (str "  equation")
    = PrimFloat.div
        (num (Z.of_nat (length (takeWhile isSpace (str "  equation")))))
        (num 2) /\
  correctLines 2 passStart
    ([str "model M"] ++ str "  equation" ::
     [str ""; str "    if a then"] ++ str "      if b then" ::
     [str "    end if;"])
  = (let sec := Pass true (headerLevel 2 (str "  equation")) in
     o1 <- correctLines 2 passStart [str "model M"] ;;
     o2 <- correctLines 2 sec [str ""; str "    if a then"] ;;
     pad <- jsRepeatNum [sp] (padCount 2 (str "  equation")) ;;
     o3 <- correctLines 2 sec [str "    end if;"] ;;
     Ok (o1 ++ str "  equation" :: o2 ++
         (pad ++ trim (str "      if b then")) :: o3)).
Proof.
  apply (proj1 corrective_pass_rewrites_control_lines 2 passStart
           [str "model M"] (str "  equation")
           [str ""; str "    if a then"] (str "      if b then")
           [str "    end if;"]).
  - vm_compute. reflexivity.
  - repeat (constructor; [split; vm_compute; reflexivity|]). constructor.
  - vm_compute. reflexivity.
Defined.

Lemma controlBlocks_change_only_in_section_witness :
  controlBlocks scanStart = [] /\
  controlBlocks (fst (scanLine scanStart None (str "if x then")))
    = controlBlocks scanStart.
Proof.
  apply (controlBlocks_change_only_in_section scanStart None (str "if x then")).
  left. reflexivity.
Defined.

(** * Further properties of the stages *)

(** ** [trim] *)

Lemma dropWhile_snoc : forall p (l : jsstring) c,
  p c = false -> dropWhile p (l ++ [c]) = dropWhile p l ++ [c].
Proof.
  induction l as [|x l IH]; intros c Hc; simpl.
  - rewrite Hc. reflexivity.
  - destruct (p x); [apply IH; exact Hc|reflexivity].
Qed.

Lemma dropWhile_idem : forall p (l : jsstring),
  dropWhile p (dropWhile p l) = dropWhile p l.
Proof.
  induction l as [|x l IH]; simpl; [reflexivity|].
  destruct (p x) eqn:E; [exact IH|]. simpl. rewrite E. reflexivity.
Qed.

Lemma dropWhile_spaces : forall p (pad l : jsstring),
  forallb p pad = true -> dropWhile p (pad ++ l) = dropWhile p l.
Proof.
  induction pad as [|x pad IH]; intros l H; simpl in *; [reflexivity|].
  apply andb_prop in H. destruct H as [Hx Hp]. rewrite Hx. auto.
Qed.

(** The shape of a trimmed string: empty, or a character that is not
    white space followed by a text that does not end in white space. *)
Lemma trim_shape : forall s,
  trim s = [] \/
  exists c u, isSpace c = false /\ dropWhile isSpace s = c :: u /\
              trim s = c :: rev (dropWhile isSpace (rev u)).
Proof.
  intros s. unfold trim.
  destruct (dropWhile isSpace s) as [|c u] eqn:E; [left; reflexivity|].
  right. exists c, u.
  assert (Hc : isSpace c = false).
  { clear -E. induction s as [|x s IH]; simpl in E; [discriminate|].
    destruct (isSpace x) eqn:Ex; [auto|]. inversion E; subst. exact Ex. }
  repeat split; auto.
  simpl rev. rewrite (dropWhile_snoc _ _ _ Hc), rev_app_distr. reflexivity.
Qed.

Lemma trim_idem : forall s, trim (trim s) = trim s.
Proof.
  intros s. destruct (trim_shape s) as [E|[c [u [Hc [_ E]]]]]; rewrite E.
  - reflexivity.
  - unfold trim. simpl dropWhile. rewrite Hc. simpl rev.
    rewrite rev_involutive, (dropWhile_snoc _ _ _ Hc), dropWhile_idem.
    rewrite rev_app_distr. reflexivity.
Qed.

Lemma trim_pad : forall pad s,
  forallb isSpace pad = true -> trim (pad ++ s) = trim s.
Proof.
  intros pad s H. unfold trim. rewrite (dropWhile_spaces _ _ _ H).
  reflexivity.
Qed.

Lemma forallb_concat_repeat : forall p (s : jsstring) n,
  forallb p s = true -> forallb p (concat (repeat s n)) = true.
Proof.
  induction n as [|n IH]; intros H; simpl; [reflexivity|].
  rewrite forallb_app, H, IH; auto.
Qed.

Lemma jsRepeat_spaces : forall indent n pad,
  forallb isSpace indent = true ->
  jsRepeat indent n = Ok pad -> forallb isSpace pad = true.
Proof.
  intros indent n pad Hi H. unfold jsRepeat in H.
  destruct (n <? 0); [discriminate|]. inversion H; subst.
  apply forallb_concat_repeat. exact Hi.
Qed.

(** ** The scan keeps the lines *)

Lemma scanLine_blank : forall st prev raw,
  snd (scanLine st prev raw) = None <-> trim raw = [].
Proof.
  intros st prev raw. unfold scanLine. cbv zeta.
  destruct (streq (trim raw) []) eqn:E.
  - apply streq_eq in E. simpl. tauto.
  - assert (N : trim raw <> []).
    { intros H. rewrite H in E. discriminate. }
    split; [|intros H; contradiction].
    repeat match goal with
           | |- context [if ?b then _ else _] => destruct b
           | |- context [match controlBlocks st with _ => _ end] =>
               destruct (controlBlocks st)
           end; simpl; discriminate.
Qed.

(** X1. The scan returns one line for every line it is given, and
    changes nothing but the white space around a line: an output line,
    once trimmed, is the trimmed input line, and a line of white space
    only comes out empty. *)
Theorem scan_keeps_lines : forall indent lines st prev outs,
  forallb isSpace indent = true ->
  indentLines indent st prev lines = Ok outs ->
  Forall2 (fun raw out => trim out = trim raw /\ (trim raw = [] -> out = []))
          lines outs.
Proof.
  intros indent lines. induction lines as [|raw more IH];
    intros st prev outs Hi H; simpl in H.
  - inversion H. constructor.
  - destruct (scanLine st prev raw) as [st' lvl] eqn:Es.
    destruct (emit indent lvl (trim raw)) as [out|e] eqn:Ee;
      simpl in H; [|discriminate].
    destruct (indentLines indent st' (Some raw) more) as [outs'|e] eqn:Em;
      simpl in H; [|discriminate].
    inversion H; subst. constructor; [|eapply IH; eauto].
    pose proof (scanLine_blank st prev raw) as Hb. rewrite Es in Hb.
    simpl in Hb. destruct lvl as [n|]; simpl in Ee.
    + destruct (jsRepeat indent n) as [pad|e] eqn:Er; simpl in Ee;
        [|discriminate].
      inversion Ee; subst. split.
      * rewrite (trim_pad _ _ (jsRepeat_spaces _ _ _ Hi Er)). apply trim_idem.
      * intros Ht. apply Hb in Ht. discriminate.
    + inversion Ee; subst. split.
      * symmetry. apply Hb. reflexivity.
      * reflexivity.
Qed.

(** ** Texts on which the scan cannot throw *)

Lemma emit_ok : forall indent n line,
  0 <= n -> exists out, emit indent (Some n) line = Ok out.
Proof.
  intros indent n line Hn. unfold emit, jsRepeat.
  destruct (n <? 0) eqn:E; [apply Z.ltb_lt in E; lia|].
  simpl. eauto.
Qed.

Lemma emit_level_ok : forall indent lvl line,
  match lvl with Some n => 0 <= n | None => True end ->
  exists out, emit indent lvl line = Ok out.
Proof.
  intros indent [n|] line H; [apply emit_ok; exact H|].
  simpl. eauto.
Qed.

(** Without a line that opens a control block the stack stays empty and
    the level stays non-negative. *)
Lemma scanLine_no_opener : forall st prev raw,
  0 <= indentLevel st -> controlBlocks st = [] ->
  isControlStart (trim raw) = false ->
  0 <= indentLevel (fst (scanLine st prev raw)) /\
  controlBlocks (fst (scanLine st prev raw)) = [] /\
  match snd (scanLine st prev raw) with Some n => 0 <= n | None => True end.
Proof.
  intros [lvl ie ia cbs] prev raw Hl Hs Ho. simpl in *. subst cbs.
  unfold scanLine. cbv zeta. simpl. rewrite Ho.
  repeat match goal with
         | |- context [if ?b then _ else _] => destruct b
         end; simpl; repeat split; auto; lia.
Qed.

(** Without a line that ends a class the level stays above the height
    of the stack. *)
Lemma scanLine_no_class_end : forall st prev raw,
  scanOk st ->
  lowersLevel (trim raw) = false ->
  scanOk (fst (scanLine st prev raw)) /\
  match snd (scanLine st prev raw) with Some n => 0 <= n | None => True end.
Proof.
  intros [lvl ie ia cbs] prev raw [Hl Hf] Hr. simpl in *.
  unfold lowersLevel, isBareEnd, isClassEnd in Hr.
  apply orb_false_elim in Hr. destruct Hr as [Hb Hc].
  unfold scanLine, scanOk. cbv zeta. simpl. rewrite Hb, Hc.
  assert (H0 : 0 <= Z.of_nat (length cbs)) by lia.
  repeat match goal with
         | |- context [if ?b then _ else _] => destruct b
         end; simpl; try (repeat split; auto; lia).
  - destruct cbs as [|top below]; simpl in *.
    + repeat split; auto; lia.
    + destruct Hf as [Ht Hf]. repeat split; auto; lia.
  - destruct cbs as [|top below]; simpl in *.
    + repeat split; auto; lia.
    + destruct Hf as [Ht Hf]. repeat split; auto; lia.
Qed.

Lemma indentLines_no_opener : forall indent lines st prev,
  0 <= indentLevel st -> controlBlocks st = [] ->
  Forall (fun raw => isControlStart (trim raw) = false) lines ->
  exists outs, indentLines indent st prev lines = Ok outs.
Proof.
  intros indent lines. induction lines as [|raw more IH];
    intros st prev Hl Hs H; simpl.
  - eauto.
  - inversion H as [|? ? Hraw Hmore]; subst.
    destruct (scanLine_no_opener st prev raw Hl Hs Hraw) as [Hl' [Hs' He]].
    destruct (scanLine st prev raw) as [st' lvl]. simpl in *.
    destruct (emit_level_ok indent lvl (trim raw) He) as [out Eo].
    rewrite Eo. simpl.
    destruct (IH st' (Some raw) Hl' Hs' Hmore) as [outs Em].
    rewrite Em. simpl. eauto.
Qed.

Lemma indentLines_no_class_end : forall indent lines st prev,
  scanOk st ->
  Forall (fun raw => lowersLevel (trim raw) = false) lines ->
  exists outs, indentLines indent st prev lines = Ok outs.
Proof.
  intros indent lines. induction lines as [|raw more IH];
    intros st prev Hok H; simpl.
  - eauto.
  - inversion H as [|? ? Hraw Hmore]; subst.
    destruct (scanLine_no_class_end st prev raw Hok Hraw) as [Hok' He].
    destruct (scanLine st prev raw) as [st' lvl]. simpl in *.
    destruct (emit_level_ok indent lvl (trim raw) He) as [out Eo].
    rewrite Eo. simpl.
    destruct (IH st' (Some raw) Hok' Hmore) as [outs Em].
    rewrite Em. simpl. eauto.
Qed.

(** X3. The scan returns normally on every text that has no line opening
    a control block ([if]/[when] ... [then], [for] ... [loop]), and on
    every text that has no line ending a class ([end], [end;], [end X]):
    the RangeError of the scan needs both. *)
Theorem scan_returns_without_opener_or_class_end : forall indent lines,
  Forall (fun raw => isControlStart (trim raw) = false) lines \/
  Forall (fun raw => lowersLevel (trim raw) = false) lines ->
  exists outs, indentLines indent scanStart None lines = Ok outs.
Proof.
  intros indent lines [H|H].
  - apply indentLines_no_opener; simpl; auto; lia.
  - apply indentLines_no_class_end; auto.
    unfold scanOk. simpl. split; [lia|exact I].
Qed.

(** ** The kinds of line exclude one another *)

Lemma startsWith_split : forall p s,
  startsWith s p = true -> exists r, s = p ++ r.
Proof.
  induction p as [|x p IH]; intros s H.
  - exists s. reflexivity.
  - destruct s as [|y s]; simpl in H; [discriminate|].
    apply andb_prop in H. destruct H as [Hxy Hs].
    apply Ascii.eqb_eq in Hxy. subst y.
    destruct (IH s Hs) as [r Hr]. exists r. simpl. rewrite Hr. reflexivity.
Qed.

Ltac prefix_of H :=
  let r := fresh "r" in
  let E := fresh "E" in
  unfold starts in H; apply startsWith_split in H; destruct H as [r E];
  subst.

Ltac literal_of H :=
  unfold eqs in H; apply streq_eq in H; subst.

Lemma controlStart_tests : forall line,
  isControlStart line = true ->
  streq line [] = false /\ isSectionStart line = false /\
  isSectionEnd line = false /\ isClassStart line = false /\
  isClassEnd line = false /\ starts line "//" = false /\
  isElse line = false /\ isControlEnd line = false.
Proof.
  intros line H. unfold isControlStart in H.
  repeat (apply orb_prop in H; destruct H as [H|H]);
    apply andb_prop in H; destruct H as [H _]; prefix_of H;
    repeat split; reflexivity.
Qed.

Lemma controlEnd_tests : forall line,
  isControlEnd line = true ->
  streq line [] = false /\ isSectionStart line = false /\
  isSectionEnd line = false /\ isClassStart line = false /\
  isClassEnd line = false /\ starts line "//" = false /\
  isControlStart line = false /\ isElse line = false.
Proof.
  intros line H. unfold isControlEnd in H.
  repeat (apply orb_prop in H; destruct H as [H|H]);
    pose proof H as H0; prefix_of H;
    repeat split; unfold isClassEnd; rewrite ?H0; reflexivity.
Qed.

Lemma else_tests : forall line,
  isElse line = true ->
  streq line [] = false /\ isSectionStart line = false /\
  isSectionEnd line = false /\ isClassStart line = false /\
  isClassEnd line = false /\ starts line "//" = false /\
  isControlStart line = false.
Proof.
  intros line H. unfold isElse in H.
  apply orb_prop in H. destruct H as [H|H];
    [literal_of H|prefix_of H]; repeat split; reflexivity.
Qed.

Lemma classStart_tests : forall line,
  isClassStart line = true ->
  streq line [] = false /\ isSectionStart line = false /\
  isSectionEnd line = false.
Proof.
  intros line H. unfold isClassStart in H.
  repeat (apply orb_prop in H; destruct H as [H|H]); prefix_of H;
    repeat split; reflexivity.
Qed.

Lemma classEnd_tests : forall line,
  isClassEnd line = true ->
  streq line [] = false /\ isSectionStart line = false /\
  isSectionEnd line = false /\ isClassStart line = false.
Proof.
  intros line H. unfold isClassEnd in H.
  apply andb_prop in H. destruct H as [H _].
  apply andb_prop in H. destruct H as [H _].
  apply andb_prop in H. destruct H as [H _].
  prefix_of H. repeat split; reflexivity.
Qed.

(** ** The branches of the scan *)

Ltac scan_tests :=
  unfold scanLine; cbv zeta;
  repeat match goal with
         | H : ?t = _ |- context [?t] => rewrite H
         end; simpl.

Lemma scanLine_opener : forall st prev raw,
  sectionActive st = true ->
  isControlStart (trim raw) = true ->
  scanLine st prev raw =
  (Scan (indentLevel st + 1) (inEquation st) (inAlgorithm st)
        (Frame (hd [] (split sp (trim raw))) (indentLevel st + 1)
           :: controlBlocks st),
   Some (indentLevel st + 1)).
Proof.
  intros st prev raw Ha Ho. unfold sectionActive in Ha.
  destruct (controlStart_tests _ Ho) as [T1 [T2 [T3 [T4 [T5 [T6 _]]]]]].
  unfold isSectionEnd in T3. unfold isClassEnd in T5.
  scan_tests. reflexivity.
Qed.

Lemma scanLine_else : forall st prev raw top below,
  sectionActive st = true ->
  isElse (trim raw) = true ->
  controlBlocks st = top :: below ->
  scanLine st prev raw =
  (Scan (level top) (inEquation st) (inAlgorithm st) (controlBlocks st),
   Some (level top)).
Proof.
  intros st prev raw top below Ha He Hs. unfold sectionActive in Ha.
  destruct (else_tests _ He) as [T1 [T2 [T3 [T4 [T5 [T6 T7]]]]]].
  unfold isSectionEnd in T3. unfold isClassEnd in T5.
  scan_tests. reflexivity.
Qed.

Lemma scanLine_closer : forall st prev raw top below,
  sectionActive st = true ->
  isControlEnd (trim raw) = true ->
  controlBlocks st = top :: below ->
  scanLine st prev raw =
  (Scan (indentLevel st - 1) (inEquation st) (inAlgorithm st) below,
   Some (indentLevel st - 1)).
Proof.
  intros st prev raw top below Ha He Hs. unfold sectionActive in Ha.
  destruct (controlEnd_tests _ He) as [T1 [T2 [T3 [T4 [T5 [T6 [T7 T8]]]]]]].
  unfold isSectionEnd in T3. unfold isClassEnd in T5.
  scan_tests. reflexivity.
Qed.

Lemma scanLine_plain : forall st prev raw,
  isPlain (trim raw) = true -> fst (scanLine st prev raw) = st.
Proof.
  intros st prev raw H. unfold isPlain in H.
  apply negb_true_iff in H.
  do 6 (apply orb_false_elim in H; let H' := fresh "T" in destruct H as [H H']).
  unfold isSectionEnd in *. unfold isClassEnd in *.
  scan_tests.
  repeat match goal with
         | |- context [if ?b then _ else _] => destruct b
         end; reflexivity.
Qed.

Lemma scanLine_classStart : forall st prev raw,
  isClassStart (trim raw) = true ->
  scanLine st prev raw =
  (Scan (indentLevel st + 1) (inEquation st) (inAlgorithm st)
        (controlBlocks st), Some (indentLevel st)).
Proof.
  intros st prev raw Hc.
  destruct (classStart_tests _ Hc) as [T1 [T2 T3]].
  unfold isSectionEnd in T3.
  scan_tests. reflexivity.
Qed.

Lemma scanLine_classEnd : forall st prev raw,
  isClassEnd (trim raw) = true ->
  scanLine st prev raw =
  (Scan (Z.max 0 (indentLevel st - 1)) (inEquation st) (inAlgorithm st)
        (controlBlocks st), Some (Z.max 0 (indentLevel st - 1))).
Proof.
  intros st prev raw Hc.
  destruct (classEnd_tests _ Hc) as [T1 [T2 [T3 T4]]].
  unfold isSectionEnd in T3. unfold isClassEnd in Hc.
  scan_tests. reflexivity.
Qed.

(** ** The two section flags *)

Lemma scanLine_flags : forall st prev raw,
  (inEquation st && inAlgorithm st)%bool = false ->
  (inEquation (fst (scanLine st prev raw)) &&
   inAlgorithm (fst (scanLine st prev raw)))%bool = false.
Proof.
  intros st prev raw H. unfold scanLine. cbv zeta.
  remember (trim raw) as line eqn:Hline. clear Hline.
  destruct (streq line []); [exact H|].
  destruct (isSectionStart line) eqn:E2.
  { apply isSectionStart_cases in E2.
    destruct E2 as [E|[E|[E|E]]]; subst line; reflexivity. }
  match goal with
  | |- context [if ?b then _ else _] => destruct b eqn:E3
  end.
  { rewrite orb_false_r in E3. apply isSectionEnd_cases in E3.
    destruct E3 as [E|[E|[E|E]]]; subst line; reflexivity. }
  repeat match goal with
         | |- context [if ?b then _ else _] => destruct b
         | |- context [match controlBlocks st with _ => _ end] =>
             destruct (controlBlocks st)
         end; exact H.
Qed.

(** X4. Whatever the lines, the scan never has both section flags set:
    at most one kind of section, equation or algorithm, is active. *)
Theorem section_flags_exclusive : forall lines,
  (inEquation (scanLines scanStart None lines) &&
   inAlgorithm (scanLines scanStart None lines))%bool = false.
Proof.
  intros lines.
  assert (G : forall ls st prev,
             (inEquation st && inAlgorithm st)%bool = false ->
             (inEquation (scanLines st prev ls) &&
              inAlgorithm (scanLines st prev ls))%bool = false).
  { induction ls as [|raw more IH]; intros st prev H; simpl; [exact H|].
    apply IH. apply scanLine_flags. exact H. }
  apply G. reflexivity.
Qed.

(** ** Blocks that are opened and closed *)

(** The line before matters for the level of a continuation line only,
    not for the variables of the scan. *)
Lemma scanLine_prev : forall st p1 p2 raw,
  fst (scanLine st p1 raw) = fst (scanLine st p2 raw).
Proof.
  intros st p1 p2 raw. unfold scanLine. cbv zeta.
  repeat match goal with
         | |- context [if ?b then _ else _] => destruct b
         | |- context [match controlBlocks st with _ => _ end] =>
             destruct (controlBlocks st)
         end; reflexivity.
Qed.

Lemma scanLines_prev : forall ls st p1 p2,
  scanLines st p1 ls = scanLines st p2 ls.
Proof.
  intros [|raw more] st p1 p2; simpl; [reflexivity|].
  rewrite (scanLine_prev st p1 p2). reflexivity.
Qed.

Lemma scanLines_app : forall a b st prev,
  scanLines st prev (a ++ b) = scanLines (scanLines st prev a) None b.
Proof.
  induction a as [|x a IH]; intros b st prev; simpl.
  - apply scanLines_prev.
  - apply IH.
Qed.

(** The body of a block: plain lines, and [else]/[elseif] lines, leave
    the variables as the opening line has set them. *)
Lemma scanLines_body : forall lvl ie ia ty cbs body prev,
  (ie || ia)%bool = true ->
  Forall (fun raw => isPlain (trim raw) = true \/ isElse (trim raw) = true)
         body ->
  scanLines (Scan lvl ie ia (Frame ty lvl :: cbs)) prev body
  = Scan lvl ie ia (Frame ty lvl :: cbs).
Proof.
  intros lvl ie ia ty cbs body. induction body as [|raw more IH];
    intros prev Ha H; [reflexivity|].
  inversion H as [|? ? Hraw Hmore]; subst. simpl scanLines.
  destruct Hraw as [Hp|He].
  - rewrite (scanLine_plain _ _ _ Hp). apply IH; auto.
  - rewrite (scanLine_else (Scan lvl ie ia (Frame ty lvl :: cbs)) prev raw
               (Frame ty lvl) cbs Ha He eq_refl).
    simpl. apply IH; auto.
Qed.

(** X5. A control block in an active section: the opening line is
    emitted one level below the current one and pushes a frame, an
    [else]/[elseif] of the block is emitted at the level of the opening
    line, the closing line is emitted one level above the opening line,
    at the level current before the block, and after the closing line
    the variables of the scan are what they were before the block. *)
Theorem control_block_round_trip : forall st prev opener body closer,
  sectionActive st = true ->
  isControlStart (trim opener) = true ->
  Forall (fun raw => isPlain (trim raw) = true \/ isElse (trim raw) = true)
         body ->
  isControlEnd (trim closer) = true ->
  scanLines st prev (opener :: body ++ [closer]) = st /\
  snd (scanLine st prev opener) = Some (indentLevel st + 1) /\
  (forall pre raw post p, body = pre ++ raw :: post ->
     isElse (trim raw) = true ->
     snd (scanLine (scanLines st prev (opener :: pre)) p raw)
       = Some (indentLevel st + 1)) /\
  (forall p, snd (scanLine (scanLines st prev (opener :: body)) p closer)
       = Some (indentLevel st)).
Proof.
  intros [lvl ie ia cbs] prev opener body closer Ha Ho Hb Hc.
  pose proof (scanLine_opener _ prev opener Ha Ho) as E1. simpl in E1.
  unfold sectionActive in Ha. simpl in Ha.
  set (ty := hd [] (split sp (trim opener))) in *.
  assert (Eb : forall ls,
             Forall (fun raw => isPlain (trim raw) = true \/
                                isElse (trim raw) = true) ls ->
             scanLines (Scan lvl ie ia cbs) prev (opener :: ls)
             = Scan (lvl + 1) ie ia (Frame ty (lvl + 1) :: cbs)).
  { intros ls Hls. simpl scanLines. rewrite E1. simpl fst.
    apply scanLines_body; auto. }
  assert (Ec : forall p,
             scanLine (Scan (lvl + 1) ie ia (Frame ty (lvl + 1) :: cbs)) p closer
             = (Scan (lvl + 1 - 1) ie ia cbs, Some (lvl + 1 - 1))).
  { intros p.
    exact (scanLine_closer (Scan (lvl + 1) ie ia (Frame ty (lvl + 1) :: cbs))
             p closer (Frame ty (lvl + 1)) cbs Ha Hc eq_refl). }
  repeat split.
  - change (opener :: body ++ [closer]) with ((opener :: body) ++ [closer]).
    rewrite scanLines_app, (Eb body Hb). simpl scanLines.
    rewrite Ec. simpl. f_equal. lia.
  - rewrite E1. reflexivity.
  - intros pre raw post p Hsplit He.
    assert (Hpre : Forall (fun raw => isPlain (trim raw) = true \/
                                      isElse (trim raw) = true) pre).
    { rewrite Hsplit in Hb. apply Forall_app in Hb. tauto. }
    rewrite (Eb pre Hpre).
    rewrite (scanLine_else (Scan (lvl + 1) ie ia (Frame ty (lvl + 1) :: cbs))
               p raw (Frame ty (lvl + 1)) cbs Ha He eq_refl).
    reflexivity.
  - intros p. rewrite (Eb body Hb), Ec. simpl. f_equal. lia.
Qed.

(** X6. A class: the line that starts it and the [end X] that ends it
    are emitted at the same level, the level current before the class
    (when it is not negative), and after the [end X] the variables of the
    scan are what they were before the class; the lines between are
    plain lines. *)
Theorem class_round_trip : forall st prev opener body closer,
  0 <= indentLevel st ->
  isClassStart (trim opener) = true ->
  Forall (fun raw => isPlain (trim raw) = true) body ->
  isClassEnd (trim closer) = true ->
  scanLines st prev (opener :: body ++ [closer]) = st /\
  snd (scanLine st prev opener) = Some (indentLevel st) /\
  (forall p, snd (scanLine (scanLines st prev (opener :: body)) p closer)
       = Some (indentLevel st)).
Proof.
  intros [lvl ie ia cbs] prev opener body closer Hl Ho Hb Hc. simpl in Hl.
  pose proof (scanLine_classStart (Scan lvl ie ia cbs) prev opener Ho) as E1.
  simpl in E1.
  assert (Eb : forall ls s p,
             Forall (fun raw => isPlain (trim raw) = true) ls ->
             scanLines s p ls = s).
  { induction ls as [|raw more IH]; intros s p H; [reflexivity|].
    inversion H; subst. simpl. rewrite scanLine_plain; auto. }
  assert (E2 : scanLines (Scan lvl ie ia cbs) prev (opener :: body)
               = Scan (lvl + 1) ie ia cbs).
  { simpl scanLines. rewrite E1. simpl fst. apply Eb. exact Hb. }
  assert (Ec : forall p,
             scanLine (Scan (lvl + 1) ie ia cbs) p closer
             = (Scan lvl ie ia cbs, Some lvl)).
  { intros p. rewrite (scanLine_classEnd _ p closer Hc). simpl.
    replace (Z.max 0 (lvl + 1 - 1)) with lvl by lia. reflexivity. }
  repeat split.
  - change (opener :: body ++ [closer]) with ((opener :: body) ++ [closer]).
    rewrite scanLines_app, E2. simpl scanLines. rewrite Ec. reflexivity.
  - rewrite E1. reflexivity.
  - intros p. rewrite E2, Ec. reflexivity.
Qed.

(** X18. Control keywords that have no block to belong to are treated as
    ordinary lines: outside an equation or algorithm section every
    opening line, [else]/[elseif] and closing line, and inside a section
    an [else]/[elseif] or a closing line met with an empty stack, is
    emitted at the current level and leaves the variables of the scan as
    they are. *)
Theorem stray_control_keywords : forall st prev raw,
  (sectionActive st = false /\
   (isControlStart (trim raw) = true \/ isElse (trim raw) = true \/
    isControlEnd (trim raw) = true)) \/
  (controlBlocks st = [] /\
   (isElse (trim raw) = true \/ isControlEnd (trim raw) = true)) ->
  scanLine st prev raw = (st, Some (indentLevel st)).
Proof.
  intros st prev raw [[Ha H]|[Hs H]].
  - unfold sectionActive in Ha. destruct H as [H|[H|H]].
    + destruct (controlStart_tests _ H) as [T1 [T2 [T3 [T4 [T5 _]]]]].
      unfold isSectionEnd in T3. unfold isClassEnd in T5.
      scan_tests. reflexivity.
    + destruct (else_tests _ H) as [T1 [T2 [T3 [T4 [T5 _]]]]].
      unfold isSectionEnd in T3. unfold isClassEnd in T5.
      scan_tests. reflexivity.
    + destruct (controlEnd_tests _ H) as [T1 [T2 [T3 [T4 [T5 _]]]]].
      unfold isSectionEnd in T3. unfold isClassEnd in T5.
      scan_tests. reflexivity.
  - destruct (sectionActive st) eqn:Ha; unfold sectionActive in Ha;
      destruct H as [H|H].
    + destruct (else_tests _ H) as [T1 [T2 [T3 [T4 [T5 [T6 T7]]]]]].
      unfold isSectionEnd in T3. unfold isClassEnd in T5.
      scan_tests. reflexivity.
    + destruct (controlEnd_tests _ H) as [T1 [T2 [T3 [T4 [T5 [T6 [T7 T8]]]]]]].
      unfold isSectionEnd in T3. unfold isClassEnd in T5.
      scan_tests. reflexivity.
    + destruct (else_tests _ H) as [T1 [T2 [T3 [T4 [T5 _]]]]].
      unfold isSectionEnd in T3. unfold isClassEnd in T5.
      scan_tests. reflexivity.
    + destruct (controlEnd_tests _ H) as [T1 [T2 [T3 [T4 [T5 _]]]]].
      unfold isSectionEnd in T3. unfold isClassEnd in T5.
      scan_tests. reflexivity.
Qed.

(** ** What the second pass keeps *)

Lemma jsRepeatNum_pad : forall x pad,
  jsRepeatNum [sp] x = Ok pad -> forallb isSpace pad = true.
Proof.
  intros x pad H. unfold jsRepeatNum in H.
  destruct (toIntegerOrInfinity x) as [n|]; [|discriminate].
  apply (jsRepeat_spaces [sp] n pad); [reflexivity|exact H].
Qed.

Lemma reindent_trim : forall tw st line out,
  reindent tw st (trim line) = Ok out -> trim out = trim line.
Proof.
  intros tw st line out H. unfold reindent in H.
  destruct (jsRepeatNum [sp] _) as [pad|e] eqn:Ep; simpl in H; [|discriminate].
  inversion H; subst.
  rewrite (trim_pad _ _ (jsRepeatNum_pad _ _ Ep)). apply trim_idem.
Qed.

(** What one iteration of the pass does to a line. *)
Lemma correctLine_cases : forall tw st raw st' out,
  correctLine tw st raw = Ok (st', out) ->
  st' = passStep tw st raw /\
  (out = raw \/
   (isControlLine (trim raw) = true /\ inEqSection st = true /\
    reindent tw st (trim raw) = Ok out)).
Proof.
  intros tw st raw st' out H.
  pose proof (correctLine_fst _ _ _ _ H) as Hs. simpl in Hs.
  split; [exact Hs|]. clear Hs.
  unfold correctLine in H. unfold isControlLine.
  destruct (isSectionStart (trim raw)); [inversion H; auto|].
  destruct (inEqSection st && isSectionEnd (trim raw))%bool;
    [inversion H; auto|].
  destruct (inEqSection st); [|inversion H; auto].
  destruct (isThenHeader (trim raw)).
  { destruct (reindent tw st (trim raw)) eqn:E; simpl in H; inversion H.
    subst. right. auto. }
  destruct (isElse (trim raw)).
  { destruct (reindent tw st (trim raw)) eqn:E; simpl in H; inversion H.
    subst. right. auto. }
  destruct (isControlEnd (trim raw)).
  { destruct (reindent tw st (trim raw)) eqn:E; simpl in H; inversion H.
    subst. right. auto. }
  inversion H; auto.
Qed.

(** X7. The second pass returns one line for every line it is given; it
    changes control lines only, and of those nothing but the white space
    around them. *)
Theorem pass_keeps_lines : forall tw lines st outs,
  correctLines tw st lines = Ok outs ->
  Forall2 (fun raw out =>
             trim out = trim raw /\
             (isControlLine (trim raw) = false -> out = raw))
          lines outs.
Proof.
  intros tw lines. induction lines as [|raw more IH]; intros st outs H;
    simpl in H.
  - inversion H. constructor.
  - destruct (correctLine tw st raw) as [[st' out]|e] eqn:E; simpl in H;
      [|discriminate].
    destruct (correctLines tw st' more) as [outs'|e] eqn:Em; simpl in H;
      [|discriminate].
    inversion H; subst. constructor; [|eapply IH; eauto].
    destruct (correctLine_cases _ _ _ _ _ E) as [_ [Ho|[Hc [_ Hr]]]].
    + subst. auto.
    + split; [eapply reindent_trim; eauto|].
      intros Hn. rewrite Hn in Hc. discriminate.
Qed.

(** X8. On lines none of which is a section header the second pass does
    nothing, whatever control lines they hold, and cannot throw. *)
Theorem pass_identity_without_header : forall tw lines,
  Forall (fun raw => isSectionStart (trim raw) = false) lines ->
  correctLines tw passStart lines = Ok lines.
Proof.
  intros tw lines H.
  assert (G : forall ls st, inEqSection st = false ->
             Forall (fun raw => isSectionStart (trim raw) = false) ls ->
             correctLines tw st ls = Ok ls).
  { induction ls as [|raw more IH]; intros st Hs Hl; [reflexivity|].
    inversion Hl as [|? ? Hraw Hmore]; subst. simpl.
    unfold correctLine. rewrite Hraw, Hs. simpl.
    rewrite (IH st Hs Hmore). reflexivity. }
  apply G; auto.
Qed.

Lemma correctLine_again : forall tw st raw st' out,
  correctLine tw st raw = Ok (st', out) ->
  correctLine tw st out = Ok (st', out).
Proof.
  intros tw st raw st' out H.
  destruct (correctLine_cases _ _ _ _ _ H) as [Hs [Ho|[Hc [Hin Hr]]]].
  - subst out. exact H.
  - pose proof (reindent_trim _ _ _ _ Hr) as Ht.
    assert (Hst : st' = st).
    { rewrite Hs. unfold passStep.
      destruct (controlLine_not_section _ Hc) as [H1 H2].
      rewrite H1, H2, andb_false_r. reflexivity. }
    rewrite Hst.
    rewrite <- Ht in Hc. rewrite (correctLine_control _ _ _ Hin Hc).
    rewrite Ht, Hr. reflexivity.
Qed.

(** X9. The second pass is idempotent: applied to its own output, from
    the same variables, it returns that output. *)
Theorem pass_idempotent : forall tw lines st outs,
  correctLines tw st lines = Ok outs ->
  correctLines tw st outs = Ok outs.
Proof.
  intros tw lines. induction lines as [|raw more IH]; intros st outs H;
    simpl in H.
  - inversion H. reflexivity.
  - destruct (correctLine tw st raw) as [[st' out]|e] eqn:E; simpl in H;
      [|discriminate].
    destruct (correctLines tw st' more) as [outs'|e] eqn:Em; simpl in H;
      [|discriminate].
    inversion H; subst. simpl.
    rewrite (correctLine_again _ _ _ _ _ E). simpl.
    rewrite (IH _ _ Em). reflexivity.
Qed.

(** ** The rule for empty lines, applied once *)

(** The rule, run by run: what it leaves of the line feeds at the start
    of the text, then the next character, then the rest. *)
Lemma collapse_unfold : forall s,
  collapseFrom 0%nat None s =
  collapsedRun (length (takeWhile isNl s)) ++
  match dropWhile isNl s with
  | [] => []
  | d :: u => d :: collapseFrom 0%nat None u
  end.
Proof.
  intros s. destruct (run_split s) as [Hs Hd].
  rewrite Hs at 1. rewrite (collapseFrom_run _ _ None Hd). f_equal.
  destruct (dropWhile isNl s) as [|d u]; [reflexivity|].
  apply collapseFrom_other. exact Hd.
Qed.

Lemma dropWhile_length : forall p (s : jsstring),
  (length (dropWhile p s) <= length s)%nat.
Proof.
  induction s as [|c s IH]; simpl; [lia|].
  destruct (p c); simpl; lia.
Qed.

Lemma collapsedRun_short : forall j,
  exists k, (k <= 2)%nat /\ collapsedRun j = repeat nl k /\
            (Nat.leb 3 j = false -> k = j).
Proof.
  intros j. unfold collapsedRun. destruct (Nat.leb 3 j) eqn:E.
  - exists 2%nat. repeat split; [lia|discriminate].
  - apply Nat.leb_gt in E. exists j. repeat split; auto. lia.
Qed.

Lemma includes_cons : forall c s p,
  includes (c :: s) p = (startsWith (c :: s) p || includes s p)%bool.
Proof. intros. destruct s; reflexivity. Qed.

Lemma startsWith_cons : forall x y p s,
  startsWith (y :: s) (x :: p) = (Ascii.eqb x y && startsWith s p)%bool.
Proof. reflexivity. Qed.

Lemma startsWith_nil : forall s, startsWith s [] = true.
Proof. destruct s; reflexivity. Qed.

Lemma hasBlankRun_short : forall k d u,
  (k <= 2)%nat -> d <> nl ->
  hasBlankRun (repeat nl k ++ d :: u) = hasBlankRun u.
Proof.
  intros k d u Hk Hd. unfold hasBlankRun.
  assert (E : Ascii.eqb nl d = false) by (apply Ascii.eqb_neq; congruence).
  destruct k as [|[|[|k]]]; try lia; cbn [repeat app];
    rewrite !includes_cons, !startsWith_cons, ?E, ?Ascii.eqb_refl;
    cbn [andb orb]; rewrite ?andb_false_r; reflexivity.
Qed.

Lemma hasBlankRun_newlines : forall k,
  (k <= 2)%nat -> hasBlankRun (repeat nl k) = false.
Proof.
  intros k Hk. destruct k as [|[|[|k]]]; try lia; reflexivity.
Qed.

Lemma hasBlankRun_long : forall j u,
  (3 <= j)%nat -> hasBlankRun (repeat nl j ++ u) = true.
Proof.
  intros j u Hj. destruct j as [|[|[|j]]]; try lia.
  unfold hasBlankRun. cbn [repeat app]. rewrite includes_cons.
  rewrite !startsWith_cons, startsWith_nil, !Ascii.eqb_refl. reflexivity.
Qed.

Lemma collapseFrom_no_blank_run : forall s,
  hasBlankRun (collapseFrom 0%nat None s) = false.
Proof.
  assert (G : forall n s, (length s <= n)%nat ->
             hasBlankRun (collapseFrom 0%nat None s) = false).
  { induction n as [|n IH]; intros s Hn.
    - destruct s; [reflexivity|simpl in Hn; lia].
    - rewrite collapse_unfold.
      destruct (collapsedRun_short (length (takeWhile isNl s)))
        as [k [Hk [Ek _]]].
      rewrite Ek. destruct (run_split s) as [Hs Hd].
      destruct (dropWhile isNl s) as [|d u] eqn:Eu.
      + rewrite app_nil_r. apply hasBlankRun_newlines. exact Hk.
      + rewrite (hasBlankRun_short k d _ Hk Hd). apply IH.
        pose proof (dropWhile_length isNl s) as L. rewrite Eu in L.
        simpl in L. lia. }
  intros s. apply (G (length s)). lia.
Qed.

(** X10. After the rule for empty lines no three line feeds stand in a
    row: the text has no two empty lines in succession. *)
Theorem collapse_leaves_no_blank_run : forall text,
  hasBlankRun (collapseBlankLines text) = false.
Proof. intros text. apply collapseFrom_no_blank_run. Qed.

(** A text without three line feeds in a row is left as it is. *)
Lemma collapse_identity : forall s,
  hasBlankRun s = false -> collapseFrom 0%nat None s = s.
Proof.
  assert (G : forall n s, (length s <= n)%nat ->
             hasBlankRun s = false -> collapseFrom 0%nat None s = s).
  { induction n as [|n IH]; intros s Hn H.
    - destruct s; [reflexivity|simpl in Hn; lia].
    - rewrite collapse_unfold. destruct (run_split s) as [Hs Hd].
      remember (length (takeWhile isNl s)) as j.
      destruct (collapsedRun_short j) as [k [Hk [Ek Ej]]].
      destruct (Nat.leb 3 j) eqn:E3.
      { apply Nat.leb_le in E3. rewrite Hs in H.
        rewrite (hasBlankRun_long j _ E3) in H. discriminate. }
      rewrite Ek, (Ej eq_refl).
      destruct (dropWhile isNl s) as [|d u] eqn:Eu.
      + symmetry. exact Hs.
      + transitivity (repeat nl j ++ d :: u); [|symmetry; exact Hs].
        f_equal. f_equal. apply IH.
        * pose proof (dropWhile_length isNl s) as L. rewrite Eu in L.
          simpl in L. lia.
        * rewrite Hs in H. apply Nat.leb_gt in E3.
          rewrite (hasBlankRun_short j d u) in H; auto. lia. }
  intros s. apply (G (length s)). lia.
Qed.

(** X11. The rule for empty lines is idempotent, and it leaves a text
    without three line feeds in a row as it is. *)
Theorem collapse_idempotent : forall text,
  collapseBlankLines (collapseBlankLines text) = collapseBlankLines text /\
  (hasBlankRun text = false -> collapseBlankLines text = text).
Proof.
  intros text. split.
  - apply collapse_identity. apply collapseFrom_no_blank_run.
  - apply collapse_identity.
Qed.

(** ** Where the substitutions cannot act *)

(** A continuation that fails wherever no character of [P] is left makes
    the match fail there too. *)
Lemma rep_without : forall P p lo hi l n s k,
  (forall x, In x l -> P x = false) ->
  (forall x, In x (rest s) -> P x = false) ->
  (forall s1, (forall x, In x (rest s1) -> P x = false) -> k s1 = None) ->
  rep p lo hi n l s k = None.
Proof.
  induction l as [|c t IH]; intros n s k Hl Hs Hk; simpl.
  - rewrite (Hk s Hs). destruct (Nat.leb lo n); reflexivity.
  - rewrite (Hk s Hs).
    rewrite (IH (S n) (advance c t s) k).
    + destruct (p c && belowMax hi n)%bool; destruct (Nat.leb lo n);
        reflexivity.
    + intros x Hx. apply Hl. right. exact Hx.
    + simpl. intros x Hx. apply Hl. right. exact Hx.
    + exact Hk.
Qed.

Lemma rmatch_without : forall P r s k,
  (forall x, In x (rest s) -> P x = false) ->
  (forall s1, (forall x, In x (rest s1) -> P x = false) -> k s1 = None) ->
  rmatch r s k = None.
Proof.
  intros P. induction r as [|c|p|a IHa b IHb|a IHa b IHb|p lo hi|i a IHa| | |
                            |pos a IHa];
    intros s k Hs Hk; simpl.
  - apply Hk. exact Hs.
  - destruct (rest s) as [|x t] eqn:E; [reflexivity|].
    destruct (Ascii.eqb x c); [|reflexivity].
    apply Hk. simpl. intros y Hy. apply Hs. rewrite ?E. right. exact Hy.
  - destruct (rest s) as [|x t] eqn:E; [reflexivity|].
    destruct (p x); [|reflexivity].
    apply Hk. simpl. intros y Hy. apply Hs. rewrite ?E. right. exact Hy.
  - apply IHa; [exact Hs|]. intros s1 H1. apply IHb; assumption.
  - rewrite (IHa s k Hs Hk). apply IHb; assumption.
  - apply (rep_without P); assumption.
  - apply IHa; [exact Hs|]. intros s1 H1. apply Hk. exact H1.
  - destruct (before s); [reflexivity|apply Hk; exact Hs].
  - destruct (rest s) eqn:E; [apply Hk; rewrite E; exact Hs|reflexivity].
  - destruct (xorb _ _); [apply Hk; exact Hs|reflexivity].
  - destruct (rmatch a s Some); destruct pos; try reflexivity;
      apply Hk; exact Hs.
Qed.

Lemma rmatch_needs : forall P r s k,
  needs P r ->
  (forall x, In x (rest s) -> P x = false) ->
  rmatch r s k = None.
Proof.
  intros P. induction r as [|c|p|a IHa b IHb|a IHa b IHb|p lo hi|i a IHa| | |
                            |pos a IHa];
    intros s k Hn Hs; simpl in Hn; try contradiction; simpl.
  - destruct (rest s) as [|x t] eqn:E; [reflexivity|].
    destruct (Ascii.eqb x c) eqn:Ex; [|reflexivity].
    apply Ascii.eqb_eq in Ex. subst x.
    rewrite (Hs c) in Hn; [discriminate|rewrite ?E; left; reflexivity].
  - destruct (rest s) as [|x t] eqn:E; [reflexivity|].
    destruct (p x) eqn:Ex; [|reflexivity].
    apply Hn in Ex. rewrite (Hs x) in Ex; [discriminate|].
    rewrite ?E. left. reflexivity.
  - destruct Hn as [Hn|Hn].
    + apply IHa; assumption.
    + apply (rmatch_without P); [exact Hs|].
      intros s1 H1. apply IHb; assumption.
  - destruct Hn as [Ha Hb]. rewrite (IHa s k Ha Hs). apply IHb; assumption.
  - destruct Hn as [Hlo Hp].
    destruct (rest s) as [|x t] eqn:E; simpl.
    + destruct lo; [lia|reflexivity].
    + assert (Ex : p x = false).
      { destruct (p x) eqn:Ex; [|reflexivity]. apply Hp in Ex.
        rewrite (Hs x) in Ex; [discriminate|]. rewrite ?E. left. reflexivity. }
      rewrite Ex. simpl. destruct lo; [lia|reflexivity].
  - apply IHa; assumption.
Qed.

(** A substitution whose pattern needs a character of [P] leaves a text
    without such a character as it is. *)
Lemma replaceAll_needs : forall P r tpl s,
  needs P r ->
  (forall x, In x s -> P x = false) ->
  replaceAll r tpl s = s.
Proof.
  intros P r tpl s Hn. unfold replaceAll. generalize (@None ascii).
  induction s as [|c t IH]; intros prev Hs; simpl.
  - unfold exec. rewrite (rmatch_needs P r _ Some Hn); [reflexivity|].
    simpl. intros x [].
  - unfold exec. rewrite (rmatch_needs P r _ Some Hn); [|exact Hs].
    f_equal. apply IH. intros x Hx. apply Hs. right. exact Hx.
Qed.

Ltac needs_char :=
  unfold seq, alt, grp, ch, lit, digits, digit, ws0, ws1, oneOf; simpl;
  solve [repeat (first [left; reflexivity | right]); try reflexivity].

Ltac skip_rule P pat H :=
  match goal with
  | |- context [replaceAll pat ?tpl ?s] =>
      rewrite (replaceAll_needs P pat tpl s); [|needs_char|exact H]
  end.

(** X16. The first stage acts on a line only where there is a minus
    sign: a line without one is left as it is. *)
Theorem preprocessLine_needs_minus : forall l,
  (forall x, In x l -> isMinus x = false) ->
  preprocessLine l = l.
Proof.
  intros l H. unfold preprocessLine.
  skip_rule isMinus Pat.nUniMinus H.
  skip_rule isMinus Pat.oneMinusRat H.
  skip_rule isMinus Pat.nUniShcRat H.
  reflexivity.
Qed.

(** X17. The last stage acts only where there is a minus sign, a plus
    sign or a slash: a text without these three characters is left as it
    is. *)
Theorem cleanup_needs_sign : forall text,
  (forall x, In x text -> isSign x = false) ->
  cleanup text = text.
Proof.
  intros text H. unfold cleanup.
  skip_rule isSign Pat.brokenComment H.
  skip_rule isSign Pat.spacedMinus H.
  skip_rule isSign Pat.parenMinus H.
  skip_rule isSign Pat.bracketMinus1 H.
  skip_rule isSign Pat.commaMinus H.
  skip_rule isSign Pat.equalsMinus H.
  skip_rule isSign Pat.exponentMinus H.
  skip_rule isSign Pat.exponentPlus H.
  skip_rule isSign Pat.nUniShcMinus H.
  skip_rule isSign Pat.parenNUniShcMinus H.
  skip_rule isSign Pat.timesMinus H.
  skip_rule isSign Pat.divMinus H.
  skip_rule isSign Pat.nUniShcRat0 H.
  skip_rule isSign Pat.nUniMinusParen H.
  reflexivity.
Qed.

(** * The formatter on whole texts *)

(** ** Texts that the substitutions leave alone *)

Lemma harmless_classes : forall x, harmless x = true ->
  ruleChar x = false /\ headerChar x = false /\ isNl x = false.
Proof.
  intros x H. unfold harmless in H. apply negb_true_iff in H.
  apply orb_false_elim in H. destruct H as [H H3].
  apply orb_false_elim in H. tauto.
Qed.

Lemma ruleChar_operator : forall x,
  existsb (Ascii.eqb x) (str "+*/=<>") = true -> ruleChar x = true.
Proof.
  intros [[] [] [] [] [] [] [] []]; vm_compute; intros H;
    try discriminate; reflexivity.
Qed.

(** The search for a match, started anywhere. *)
Lemma replaceFrom_needs : forall P r tpl s prev,
  needs P r ->
  (forall x, In x s -> P x = false) ->
  replaceFrom r tpl 0 prev s = s.
Proof.
  intros P r tpl s prev Hn. revert prev.
  induction s as [|c t IH]; intros prev Hs; simpl.
  - unfold exec. rewrite (rmatch_needs P r _ Some Hn); [reflexivity|].
    simpl. intros x [].
  - unfold exec. rewrite (rmatch_needs P r _ Some Hn); [|exact Hs].
    f_equal. apply IH. intros x Hx. apply Hs. right. exact Hx.
Qed.

(** The character that a pattern needs, looked for in all its parts. *)
Ltac needs_search :=
  match goal with
  | |- _ \/ _ => first [left; needs_search | right; needs_search]
  | |- _ /\ _ => split; needs_search
  | |- _ = true => reflexivity
  end.

Ltac quiet_rule pat H :=
  match goal with
  | |- context [replaceAll pat ?tpl ?s] =>
      rewrite (replaceAll_needs ruleChar pat tpl s);
      [|simpl; needs_search|exact H]
  end.

Lemma needs_operator : needs ruleChar Pat.operator.
Proof. right. left. exact ruleChar_operator. Qed.

Lemma needs_prefixKeyword : needs ruleChar Pat.prefixKeyword.
Proof. right. left. simpl. needs_search. Qed.

Lemma needs_sectionHeader : needs headerChar Pat.sectionHeader.
Proof. left. simpl. needs_search. Qed.

(** The two substitutions made before the text is split into lines. *)
Lemma entry_quiet : forall t,
  (forall x, In x t -> ruleChar x = false) ->
  replaceAll Pat.brokenComment [txt "//"] (replaceAll Pat.crlf [tnl] t) = t.
Proof.
  intros t H.
  quiet_rule Pat.crlf H.
  quiet_rule Pat.brokenComment H.
  reflexivity.
Qed.

Lemma preprocessLine_quiet : forall l,
  (forall x, In x l -> ruleChar x = false) -> preprocessLine l = l.
Proof.
  intros l H. unfold preprocessLine.
  quiet_rule Pat.nUniMinus H.
  quiet_rule Pat.oneMinusRat H.
  quiet_rule Pat.nUniShcRat H.
  reflexivity.
Qed.

(** Of the third stage only its last two rules are left. *)
Lemma normalize_quiet : forall t,
  (forall x, In x t -> ruleChar x = false) ->
  normalize t
  = replaceAll Pat.sectionHeader [cap 1; tnl; tnl] (collapseBlankLines t).
Proof.
  intros t H. unfold normalize.
  quiet_rule Pat.within H.
  quiet_rule Pat.withinLine H.
  quiet_rule Pat.comma H.
  rewrite (replaceAll_needs ruleChar Pat.operator _ t needs_operator H).
  quiet_rule Pat.subtraction H.
  quiet_rule Pat.negativeLiteral H.
  quiet_rule Pat.negation H.
  quiet_rule Pat.exponentMinus H.
  quiet_rule Pat.annotation H.
  quiet_rule Pat.bareColon H.
  quiet_rule Pat.range H.
  quiet_rule Pat.indexRange H.
  quiet_rule Pat.indexColon H.
  quiet_rule Pat.forRange H.
  quiet_rule Pat.bracketMinus H.
  quiet_rule Pat.braceMinus H.
  rewrite (replaceAll_needs ruleChar Pat.prefixKeyword _ t
             needs_prefixKeyword H).
  reflexivity.
Qed.

Lemma cleanup_quiet : forall t,
  (forall x, In x t -> ruleChar x = false) -> cleanup t = t.
Proof.
  intros t H. unfold cleanup.
  quiet_rule Pat.brokenComment H.
  quiet_rule Pat.spacedMinus H.
  quiet_rule Pat.parenMinus H.
  quiet_rule Pat.bracketMinus1 H.
  quiet_rule Pat.commaMinus H.
  quiet_rule Pat.equalsMinus H.
  quiet_rule Pat.exponentMinus H.
  quiet_rule Pat.exponentPlus H.
  quiet_rule Pat.nUniShcMinus H.
  quiet_rule Pat.parenNUniShcMinus H.
  quiet_rule Pat.timesMinus H.
  quiet_rule Pat.divMinus H.
  quiet_rule Pat.nUniShcRat0 H.
  quiet_rule Pat.nUniMinusParen H.
  reflexivity.
Qed.

Lemma collapse_quiet : forall s,
  (forall x, In x s -> isNl x = false) -> collapseFrom 0%nat None s = s.
Proof.
  intros s H. unfold collapseFrom.
  apply (replaceFrom_needs isNl); [|exact H].
  simpl. split; [lia|auto].
Qed.

(** A line, its line feed, and a text that does not begin with a line
    feed. *)
Lemma collapse_line : forall a more,
  (forall x, In x a -> isNl x = false) ->
  hd sp more <> nl ->
  collapseFrom 0%nat None (a ++ nl :: more)
  = a ++ nl :: collapseFrom 0%nat None more.
Proof.
  induction a as [|c a IH]; intros more Ha Hm.
  - apply (collapseFrom_run 1 more None Hm).
  - cbn [app]. rewrite collapseFrom_other.
    + rewrite IH; auto. intros x Hx. apply Ha. right. exact Hx.
    + intros E. subst c. specialize (Ha nl (or_introl eq_refl)). discriminate.
Qed.

(** The lookahead [(?!\s*$)] of the rule for section headers: what
    follows is not white space to the end of the text. *)
Lemma rest_not_blank : forall l n s,
  rest s = l -> forallb isSpace l = false ->
  rep isSpace 0 None n l s (fun s1 => rmatch REol s1 Some) = None.
Proof.
  induction l as [|c t IH]; intros n s Hr Hl; [discriminate|].
  cbn [rep]. cbn [forallb] in Hl.
  assert (Stop : rmatch REol s Some = None).
  { cbn [rmatch]. rewrite Hr. reflexivity. }
  rewrite Stop. cbn [Nat.leb belowMax]. rewrite andb_true_r.
  destruct (isSpace c) eqn:E; [|reflexivity].
  rewrite IH; [reflexivity|reflexivity|exact Hl].
Qed.

(** The rule for section headers on a text that begins with the line
    [equation] and holds no other header. *)
Lemma header_rule : forall R,
  forallb isSpace R = false ->
  (forall x, In x R -> headerChar x = false) ->
  replaceAll Pat.sectionHeader [cap 1; tnl; tnl] (str "equation" ++ nl :: R)
  = str "equation" ++ nl :: nl :: R.
Proof.
  intros R Hb Hq.
  assert (E : exec Pat.sectionHeader None (str "equation" ++ nl :: R)
              = Some (9%nat, [(1%nat, str "equation")])).
  { unfold exec. cbn -[rep].
    rewrite (rest_not_blank R); [reflexivity|reflexivity|exact Hb]. }
  unfold replaceAll.
  change (str "equation" ++ nl :: R)
    with ("e"%char :: "q"%char :: "u"%char :: "a"%char :: "t"%char ::
          "i"%char :: "o"%char :: "n"%char :: nl :: R) in *.
  cbn [replaceFrom]. rewrite E. cbn [replaceFrom].
  rewrite (replaceFrom_needs headerChar _ _ R _ needs_sectionHeader Hq).
  reflexivity.
Qed.

(** ** Lines and texts *)

Lemma split_line : forall a more,
  (forall x, In x a -> isNl x = false) ->
  split nl (a ++ nl :: more) = a :: split nl more.
Proof.
  induction a as [|c a IH]; intros more H.
  - cbn [app split]. rewrite Ascii.eqb_refl. reflexivity.
  - cbn [app split]. assert (E : Ascii.eqb c nl = false).
    { specialize (H c (or_introl eq_refl)). unfold isNl in H.
      rewrite Ascii.eqb_sym. exact H. }
    rewrite E. rewrite IH; [reflexivity|].
    intros x Hx. apply H. right. exact Hx.
Qed.

Lemma split_last : forall a,
  (forall x, In x a -> isNl x = false) -> split nl a = [a].
Proof.
  induction a as [|c a IH]; intros H; [reflexivity|].
  cbn [split]. assert (E : Ascii.eqb c nl = false).
  { specialize (H c (or_introl eq_refl)). unfold isNl in H.
    rewrite Ascii.eqb_sym. exact H. }
  rewrite E, IH; [reflexivity|]. intros x Hx. apply H. right. exact Hx.
Qed.

Lemma join_cons : forall c x more,
  more <> [] -> join c (x :: more) = x ++ c :: join c more.
Proof. intros c x [|y more] H; [contradiction|reflexivity]. Qed.

Lemma map_same : forall (f : jsstring -> jsstring) ls,
  Forall (fun l => f l = l) ls -> map f ls = ls.
Proof.
  intros f ls H. induction H as [|l ls Hl _ IH]; simpl; [reflexivity|].
  rewrite Hl, IH. reflexivity.
Qed.

Lemma forallb_without : forall (p : ascii -> bool) x l,
  In x l -> p x = false -> forallb p l = false.
Proof.
  intros p x l Hi Hp. destruct (forallb p l) eqn:E; [|reflexivity].
  rewrite forallb_forall in E. rewrite (E x Hi) in Hp. discriminate.
Qed.

Lemma streq_neq : forall a b, a <> b -> streq a b = false.
Proof.
  intros a b H. destruct (streq a b) eqn:E; [|reflexivity].
  apply streq_eq in E. contradiction.
Qed.

Lemma startsWith_app : forall p r, startsWith (p ++ r) p = true.
Proof.
  induction p as [|x p IH]; intros r; [apply startsWith_nil|].
  cbn [app startsWith]. rewrite Ascii.eqb_refl. apply IH.
Qed.

Lemma endsWith_app : forall r p, endsWith (r ++ p) p = true.
Proof.
  intros r p. unfold endsWith. rewrite rev_app_distr. apply startsWith_app.
Qed.

(** A string that begins and ends with a character that is not white
    space is its own [trim]. *)
Lemma trim_fixed : forall s,
  isSpace (hd sp s) = false -> isSpace (hd sp (rev s)) = false -> trim s = s.
Proof.
  intros s H1 H2. unfold trim.
  assert (D : forall u, isSpace (hd sp u) = false -> dropWhile isSpace u = u).
  { intros [|x u] H; [reflexivity|]. simpl in *. rewrite H. reflexivity. }
  rewrite (D s H1), (D (rev s) H2). apply rev_involutive.
Qed.

(** ** Statements *)

Lemma statement_facts : forall s,
  isStatement s = true ->
  (forall x, In x s -> harmless x = true) /\ s <> [] /\ trim s = s /\
  isPlain s = true.
Proof.
  intros s H. unfold isStatement in H.
  apply andb_prop in H. destruct H as [H H4].
  apply andb_prop in H. destruct H as [H H3].
  apply andb_prop in H. destruct H as [H1 H2].
  repeat split; auto.
  - apply forallb_forall. exact H1.
  - intros E. subst s. discriminate.
  - apply streq_eq. exact H3.
Qed.

Lemma plain_tests : forall line,
  isPlain line = true ->
  isSectionStart line = false /\ isSectionEnd line = false /\
  isClassStart line = false /\ isClassEnd line = false /\
  isControlStart line = false /\ isElse line = false /\
  isControlEnd line = false /\ isControlLine line = false.
Proof.
  intros line H. unfold isPlain in H. apply negb_true_iff in H.
  do 6 (apply orb_false_elim in H; let T := fresh "T" in destruct H as [H T]).
  repeat split; auto.
  unfold isControlLine. rewrite T0, T.
  unfold isControlStart in T1. unfold isThenHeader.
  destruct (starts line "if "), (starts line "when "), (ends line "then");
    simpl in *; congruence.
Qed.

Lemma harmless_no_comment : forall s,
  (forall x, In x s -> harmless x = true) -> starts s "//" = false.
Proof.
  intros [|x s] H; [reflexivity|].
  specialize (H x (or_introl eq_refl)). unfold starts.
  change (str "//") with ["/"%char; "/"%char]. rewrite startsWith_cons.
  destruct (Ascii.eqb "/" x) eqn:E; [|reflexivity].
  apply Ascii.eqb_eq in E. subst x. discriminate.
Qed.

(** After a line of harmless characters the next line is not taken for
    a continuation. *)
Lemma harmless_no_continuation : forall s,
  trim s = s -> (forall x, In x s -> harmless x = true) ->
  isContinuation (Some s) = false.
Proof.
  intros s Ht H. unfold isContinuation. rewrite Ht. unfold ends, endsWith.
  assert (G : forall x, In x (rev s) -> harmless x = true)
    by (intros x Hx; apply H, in_rev; exact Hx).
  destruct (rev s) as [|y u]; [reflexivity|].
  specialize (G y (or_introl eq_refl)).
  change (rev (str "(")) with ["("%char]. change (rev (str ",")) with [","%char].
  rewrite !startsWith_cons, !startsWith_nil, !andb_true_r.
  destruct (Ascii.eqb "(" y) eqn:E1.
  { apply Ascii.eqb_eq in E1. subst y. discriminate. }
  destruct (Ascii.eqb "," y) eqn:E2.
  { apply Ascii.eqb_eq in E2. subst y. discriminate. }
  reflexivity.
Qed.

(** The characters of a text that is written as a concatenation. *)
Ltac in_text Hx :=
  match type of Hx with
  | In _ (_ ++ _) =>
      apply in_app_or in Hx; destruct Hx as [Hx|Hx]; in_text Hx
  | In _ (str _) =>
      vm_compute in Hx;
      repeat (destruct Hx as [Hx|Hx]; [subst; reflexivity|]); contradiction
  | In _ (repeat _ _) => apply repeat_spec in Hx; subst; reflexivity
  | In _ (_ :: _) => destruct Hx as [Hx|Hx]; [subst; reflexivity|in_text Hx]
  | In _ [] => contradiction
  | In _ ?c =>
      match goal with
      | H : forall x, In x c -> harmless x = true |- _ =>
          apply H in Hx;
          first [exact Hx | apply harmless_classes in Hx; tauto]
      end
  end.

Ltac chars :=
  let x := fresh "x" in
  let Hx := fresh "Hx" in
  intros x Hx; in_text Hx.

(** ** The two passes on plain lines and statements *)

(** A plain line met outside a section. *)
Lemma scanLine_outside : forall st prev raw,
  sectionActive st = false ->
  isPlain (trim raw) = true ->
  scanLine st prev raw =
  (st, if streq (trim raw) [] then None else Some (indentLevel st)).
Proof.
  intros st prev raw Ha Hp. unfold sectionActive in Ha.
  destruct (plain_tests _ Hp) as [T1 [T2 [T3 [T4 _]]]].
  unfold isSectionEnd in T2. unfold isClassEnd in T4.
  unfold scanLine. cbv zeta. rewrite T1, T3, T4, Ha.
  destruct (streq (trim raw) []); [reflexivity|].
  apply orb_false_elim in T2. destruct T2 as [T2 T2d].
  apply orb_false_elim in T2. destruct T2 as [T2 T2c].
  apply orb_false_elim in T2. destruct T2 as [T2a T2b].
  rewrite T2a, T2b, T2c, T2d. reflexivity.
Qed.

(** A statement in an active section. *)
Lemma scanLine_statement : forall st prev raw,
  sectionActive st = true ->
  isPlain (trim raw) = true ->
  streq (trim raw) [] = false ->
  starts (trim raw) "//" = false ->
  isContinuation prev = false ->
  scanLine st prev raw = (st, Some (indentLevel st + 1)).
Proof.
  intros st prev raw Ha Hp Hn Hc Hk. unfold sectionActive in Ha.
  destruct (plain_tests _ Hp) as [T1 [T2 [T3 [T4 [T5 [T6 [T7 _]]]]]]].
  unfold isSectionEnd in T2. unfold isClassEnd in T4.
  apply orb_false_elim in T2. destruct T2 as [T2 T2d].
  apply orb_false_elim in T2. destruct T2 as [T2 T2c].
  apply orb_false_elim in T2. destruct T2 as [T2a T2b].
  unfold scanLine. cbv zeta.
  rewrite Hn, T1, T2a, T2b, T2c, T2d, T3, T4, Ha, Hc, T5, T6, T7, Hk.
  reflexivity.
Qed.

Lemma emit_levels : forall indent l,
  emit indent (Some 0) l = Ok l /\
  emit indent (Some 1) l = Ok (indent ++ l) /\
  emit indent (Some 2) l = Ok ((indent ++ indent) ++ l).
Proof.
  intros indent l. unfold emit, jsRepeat. simpl.
  rewrite !app_nil_r. auto.
Qed.

Lemma indentLines_cons : forall indent st prev raw more st' lvl out outs,
  scanLine st prev raw = (st', lvl) ->
  emit indent lvl (trim raw) = Ok out ->
  indentLines indent st' (Some raw) more = Ok outs ->
  indentLines indent st prev (raw :: more) = Ok (out :: outs).
Proof.
  intros indent st prev raw more st' lvl out outs H1 H2 H3.
  cbn [indentLines]. rewrite H1, H2. cbn [bind]. rewrite H3. reflexivity.
Qed.

(** Outside every section, at level 0, plain lines without white space
    at their ends come out of the scan as they are. *)
Lemma indentLines_outside : forall indent lines st prev,
  sectionActive st = false -> indentLevel st = 0 ->
  Forall (fun l => trim l = l /\ isPlain l = true) lines ->
  indentLines indent st prev lines = Ok lines.
Proof.
  intros indent lines. induction lines as [|raw more IH];
    intros st prev Ha Hl H; [reflexivity|].
  inversion H as [|? ? [Ht Hp] Hmore]; subst.
  cbn [indentLines]. rewrite scanLine_outside; [|exact Ha|rewrite Ht; exact Hp].
  rewrite Ht, Hl. rewrite (IH st (Some raw) Ha Hl Hmore).
  destruct (streq raw []) eqn:E.
  - apply streq_eq in E. subst raw. reflexivity.
  - reflexivity.
Qed.

Lemma correctLine_other : forall tw st raw,
  isPlain (trim raw) = true -> correctLine tw st raw = Ok (st, raw).
Proof.
  intros tw st raw Hp.
  destruct (plain_tests _ Hp) as [T1 [T2 [_ [_ [_ [T6 [T7 T8]]]]]]].
  unfold isControlLine in T8. rewrite T6, T7, !orb_false_r in T8.
  unfold correctLine. rewrite T1, T2, T6, T7, T8, andb_false_r.
  destruct (inEqSection st); reflexivity.
Qed.

Lemma correctLines_cons : forall tw st raw more st' out outs,
  correctLine tw st raw = Ok (st', out) ->
  correctLines tw st' more = Ok outs ->
  correctLines tw st (raw :: more) = Ok (out :: outs).
Proof.
  intros tw st raw more st' out outs H1 H2.
  cbn [correctLines]. rewrite H1. cbn [bind fst snd]. rewrite H2. reflexivity.
Qed.

Lemma correctLines_no_header : forall tw ls st,
  inEqSection st = false ->
  Forall (fun raw => isSectionStart (trim raw) = false) ls ->
  correctLines tw st ls = Ok ls.
Proof.
  induction ls as [|raw more IH]; intros st Hs Hl; [reflexivity|].
  inversion Hl as [|? ? Hraw Hmore]; subst. simpl.
  unfold correctLine. rewrite Hraw, Hs. simpl.
  rewrite (IH st Hs Hmore). reflexivity.
Qed.

(** The indentation and the count of the second pass for a header at
    level 0, for the tab widths 1 to 8. *)
Lemma pad_of_width : forall tw,
  1 <= tw <= 8 ->
  jsRepeat [sp] tw = Ok (repeat sp (Z.to_nat tw)) /\
  jsRepeatNum [sp] (padCount tw (str "equation"))
    = Ok (repeat sp (Z.to_nat tw)).
Proof.
  intros tw H.
  assert (E : tw = 1 \/ tw = 2 \/ tw = 3 \/ tw = 4 \/ tw = 5 \/ tw = 6 \/
              tw = 7 \/ tw = 8) by lia.
  destruct E as [E|[E|[E|[E|[E|[E|[E|E]]]]]]]; subst tw; split;
    vm_compute; reflexivity.
Qed.

(** ** Lists of lines *)

Lemma join_app : forall c (a b : list jsstring),
  a <> [] -> b <> [] -> join c (a ++ b) = join c a ++ c :: join c b.
Proof.
  induction a as [|x a IH]; intros b Ha Hb; [contradiction|].
  destruct a as [|y a].
  - cbn [app]. rewrite join_cons by exact Hb. reflexivity.
  - change ((x :: y :: a) ++ b) with (x :: (y :: a) ++ b).
    rewrite join_cons by discriminate.
    rewrite IH by (discriminate || exact Hb).
    rewrite (join_cons c x (y :: a)) by discriminate.
    rewrite <- app_assoc. reflexivity.
Qed.

Lemma join_blank_lines : forall k (b : list jsstring),
  b <> [] -> join nl (repeat [] k ++ b) = repeat nl k ++ join nl b.
Proof.
  induction k as [|k IH]; intros b Hb; [reflexivity|].
  cbn [repeat app]. rewrite join_cons.
  - rewrite IH by exact Hb. reflexivity.
  - destruct k; [exact Hb|discriminate].
Qed.

Lemma split_join : forall ls,
  ls <> [] ->
  Forall (fun l => forall x, In x l -> isNl x = false) ls ->
  split nl (join nl ls) = ls.
Proof.
  induction ls as [|l more IH]; intros Hn H; [contradiction|].
  inversion H as [|? ? Hl Hmore]; subst.
  destruct more as [|m more].
  - apply split_last. exact Hl.
  - rewrite join_cons by discriminate. rewrite (split_line l _ Hl).
    rewrite IH; [reflexivity|discriminate|exact Hmore].
Qed.

Lemma join_avoid : forall P ls,
  P nl = false ->
  Forall (fun l => forall x, In x l -> P x = false) ls ->
  forall x, In x (join nl ls) -> P x = false.
Proof.
  intros P ls Hn H. induction H as [|l more Hl _ IH]; intros x Hx.
  - contradiction.
  - destruct more as [|m more]; [apply Hl; exact Hx|].
    rewrite join_cons in Hx by discriminate.
    apply in_app_or in Hx. destruct Hx as [Hx|[Hx|Hx]]; subst; auto.
Qed.

(** The ends of a text made of lines that are not empty. *)
Lemma join_ends : forall ls,
  ls <> [] ->
  Forall (fun l => l <> [] /\ forall x, In x l -> isNl x = false) ls ->
  join nl ls <> [] /\ hd sp (join nl ls) <> nl /\ last (join nl ls) sp <> nl.
Proof.
  induction ls as [|l more IH]; intros Hn H; [contradiction|].
  inversion H as [|? ? [Hl1 Hl2] Hmore]; subst.
  assert (Hh : forall u, hd sp (l ++ u) <> nl).
  { intros u E. destruct l as [|c l]; [contradiction|]. simpl in E.
    specialize (Hl2 c (or_introl eq_refl)). subst c. discriminate. }
  destruct more as [|m more].
  - cbn [join]. repeat split; [exact Hl1|rewrite <- (app_nil_r l); apply Hh|].
    intros E. assert (Hin : In (last l sp) l).
    { clear -Hl1. induction l as [|x l IH]; [contradiction|].
      destruct l as [|y l]; [left; reflexivity|].
      right. apply IH. discriminate. }
    apply Hl2 in Hin. rewrite E in Hin. discriminate.
  - rewrite join_cons by discriminate.
    destruct IH as [I1 [I2 I3]]; [discriminate|exact Hmore|].
    repeat split.
    + destruct l; discriminate.
    + apply Hh.
    + rewrite last_app_cons.
      destruct (join nl (m :: more)) eqn:E; [contradiction|exact I3].
Qed.

(** The rule for empty lines leaves a text without empty lines as it
    is. *)
Lemma collapse_join : forall ls,
  Forall (fun l => l <> [] /\ forall x, In x l -> isNl x = false) ls ->
  collapseFrom 0%nat None (join nl ls) = join nl ls.
Proof.
  induction ls as [|l more IH]; intros H; [reflexivity|].
  inversion H as [|? ? [Hl1 Hl2] Hmore]; subst.
  destruct more as [|m more]; [apply collapse_quiet; exact Hl2|].
  rewrite join_cons by discriminate.
  rewrite collapse_line; [rewrite (IH Hmore); reflexivity|exact Hl2|].
  apply (join_ends (m :: more)); [discriminate|exact Hmore].
Qed.

(** Lines of harmless characters. *)
Lemma harmless_lines : forall ls,
  Forall (fun l => l <> [] /\ forallb harmless l = true) ls ->
  Forall (fun l => forall x, In x l -> ruleChar x = false) ls /\
  Forall (fun l => forall x, In x l -> headerChar x = false) ls /\
  Forall (fun l => forall x, In x l -> isNl x = false) ls /\
  Forall (fun l => l <> [] /\ forall x, In x l -> isNl x = false) ls.
Proof.
  intros ls H. repeat split; apply (Forall_impl _ (P := fun l => l <> [] /\ forallb harmless l = true));
    try exact H; intros l [Hn Hl]; try split; try exact Hn;
    intros x Hx; rewrite forallb_forall in Hl; apply Hl in Hx;
    apply harmless_classes in Hx; tauto.
Qed.

Lemma statement_line : forall s,
  isStatement s = true -> s <> [] /\ forallb harmless s = true.
Proof.
  intros s H. destruct (statement_facts s H) as [H1 [H2 _]].
  split; [exact H2|]. apply forallb_forall. exact H1.
Qed.

Lemma statement_lines : forall pad ls,
  forallb harmless pad = true ->
  Forall (fun s => isStatement s = true) ls ->
  Forall (fun l => l <> [] /\ forallb harmless l = true) (map (app pad) ls).
Proof.
  intros pad ls Hp H. apply Forall_map.
  apply (Forall_impl _ (P := fun s => isStatement s = true)); [|exact H].
  intros s Hs. destruct (statement_line s Hs) as [H1 H2]. split.
  - destruct pad; [exact H1|discriminate].
  - rewrite forallb_app, Hp, H2. reflexivity.
Qed.

(** The scan on the statements of a branch. *)
Lemma indentLines_statements : forall indent pad body more st prev outs,
  sectionActive st = true ->
  (forall l, emit indent (Some (indentLevel st + 1)) l = Ok (pad ++ l)) ->
  Forall (fun s => isStatement s = true) body ->
  isContinuation prev = false ->
  (forall p, indentLines indent st p more = Ok outs) ->
  indentLines indent st prev (body ++ more) = Ok (map (app pad) body ++ outs).
Proof.
  intros indent pad body more st prev outs Ha He H. revert prev.
  induction H as [|s body Hs _ IH]; intros prev Hk Hm; [apply Hm|].
  destruct (statement_facts s Hs) as [A1 [A2 [A3 A4]]].
  cbn [app map].
  apply (indentLines_cons _ _ _ _ _ st (Some (indentLevel st + 1))).
  - apply scanLine_statement;
      [exact Ha|rewrite A3; exact A4|rewrite A3; apply streq_neq; exact A2
      |rewrite A3; apply harmless_no_comment; exact A1|exact Hk].
  - rewrite A3. apply He.
  - apply IH; [|exact Hm]. apply harmless_no_continuation; assumption.
Qed.

(** The second pass on lines that it does not recognise. *)
Lemma correctLines_plain : forall tw st ls more outs,
  Forall (fun l => isPlain (trim l) = true) ls ->
  correctLines tw st more = Ok outs ->
  correctLines tw st (ls ++ more) = Ok (ls ++ outs).
Proof.
  intros tw st ls more outs H Hm.
  induction H as [|l ls Hl _ IH]; [exact Hm|].
  cbn [app]. apply (correctLines_cons _ _ _ _ st); [|exact IH].
  apply correctLine_other. exact Hl.
Qed.

Lemma statements_plain : forall pad ls,
  forallb isSpace pad = true ->
  Forall (fun s => isStatement s = true) ls ->
  Forall (fun l => isPlain (trim l) = true) (map (app pad) ls).
Proof.
  intros pad ls Hp H. apply Forall_map.
  apply (Forall_impl _ (P := fun s => isStatement s = true)); [|exact H].
  intros s Hs. destruct (statement_facts s Hs) as [_ [_ [A3 A4]]].
  rewrite (trim_pad _ _ Hp), A3. exact A4.
Qed.

(** ** Statements and the empty lines between them *)

Lemma blank_lines_avoid : forall (P : ascii -> bool) j,
  Forall (fun l : jsstring => forall x, In x l -> P x = false) (repeat [] j).
Proof.
  intros P j. apply Forall_forall. intros l Hl. apply repeat_spec in Hl.
  subst l. intros x [].
Qed.

Lemma format_blank_lines : forall A B j options,
  (2 <= j)%nat ->
  0 <= orDefault (tabWidth options) 2 ->
  A <> [] -> B <> [] ->
  Forall (fun s => isStatement s = true) A ->
  Forall (fun s => isStatement s = true) B ->
  formatModelica (join nl (A ++ repeat [] j ++ B)) options
  = Ok (join nl (A ++ [] :: B)).
Proof.
  intros A B j options Hj Htw HA HB SA SB.
  assert (FA : Forall (fun l => l <> [] /\ forallb harmless l = true) A)
    by (apply (Forall_impl _ statement_line); exact SA).
  assert (FB : Forall (fun l => l <> [] /\ forallb harmless l = true) B)
    by (apply (Forall_impl _ statement_line); exact SB).
  destruct (harmless_lines A FA) as [Ar [Ah [An Ae]]].
  destruct (harmless_lines B FB) as [Br [Bh [Bn Be]]].
  assert (Tp : forall S, Forall (fun s => isStatement s = true) S ->
            Forall (fun l => trim l = l /\ isPlain l = true) S).
  { intros S HS. apply (Forall_impl _ (P := fun s => isStatement s = true));
      [|exact HS].
    intros s Hs. destruct (statement_facts s Hs) as [_ [_ [H3 H4]]]. auto. }
  assert (N0 : A ++ repeat [] j ++ B <> []) by (destruct A; [contradiction|discriminate]).
  assert (N1 : A ++ [] :: B <> []) by (destruct A; discriminate).
  assert (R0 : Forall (fun l => forall x, In x l -> ruleChar x = false)
                 (A ++ repeat [] j ++ B)).
  { apply Forall_app. split; [exact Ar|]. apply Forall_app. split; [|exact Br].
    apply blank_lines_avoid. }
  assert (L0 : Forall (fun l => forall x, In x l -> isNl x = false)
                 (A ++ repeat [] j ++ B)).
  { apply Forall_app. split; [exact An|]. apply Forall_app. split; [|exact Bn].
    apply blank_lines_avoid. }
  assert (Q1 : forall P, Forall (fun l => forall x, In x l -> P x = false) A ->
            Forall (fun l => forall x, In x l -> P x = false) B ->
            Forall (fun l => forall x, In x l -> P x = false) (A ++ [] :: B)).
  { intros P PA PB. apply Forall_app. split; [exact PA|].
    constructor; [intros x []|exact PB]. }
  unfold formatModelica. cbv zeta.
  unfold jsRepeat at 1.
  destruct (orDefault (tabWidth options) 2 <? 0) eqn:E;
    [apply Z.ltb_lt in E; lia|]. clear E. cbn [bind].
  set (indent := concat (repeat [sp] (Z.to_nat (orDefault (tabWidth options) 2)))).
  rewrite (entry_quiet _ (join_avoid ruleChar _ eq_refl R0)).
  rewrite (split_join _ N0 L0).
  rewrite map_same
    by (apply (Forall_impl _ preprocessLine_quiet); exact R0).
  rewrite (indentLines_outside indent _ scanStart None eq_refl eq_refl).
  2:{ apply Forall_app. split; [apply Tp; exact SA|].
      apply Forall_app. split; [|apply Tp; exact SB].
      apply Forall_forall. intros l Hl. apply repeat_spec in Hl. subst l.
      split; reflexivity. }
  cbn [bind].
  rewrite (normalize_quiet _ (join_avoid ruleChar _ eq_refl R0)).
  assert (Ej : join nl (A ++ repeat [] j ++ B)
               = join nl A ++ repeat nl (S j) ++ join nl B).
  { rewrite join_app; [|exact HA|destruct j; [lia|discriminate]].
    rewrite join_blank_lines by exact HB. reflexivity. }
  assert (Ek : join nl (A ++ [] :: B) = join nl A ++ [nl; nl] ++ join nl B).
  { rewrite join_app; [|exact HA|discriminate].
    rewrite join_cons by exact HB. reflexivity. }
  destruct (join_ends A HA Ae) as [_ [_ La]].
  destruct (join_ends B HB Be) as [_ [Hb _]].
  change (collapseBlankLines ?t) with (collapseFrom 0%nat None t).
  rewrite Ej.
  rewrite (collapseFrom_around_run (length (join nl A)) _ (S j) _ (le_n _)
             (le_n_S _ _ Hj) La Hb).
  rewrite (collapse_join A Ae), (collapse_join B Be), <- Ek.
  rewrite (replaceAll_needs headerChar Pat.sectionHeader _ _
             needs_sectionHeader
             (join_avoid headerChar _ eq_refl (Q1 _ Ah Bh))).
  rewrite (split_join _ N1 (Q1 _ An Bn)).
  rewrite correctLines_no_header; [|reflexivity|].
  2:{ apply Forall_app. split; [|constructor; [reflexivity|]].
      - apply (Forall_impl _ (P := fun s => isStatement s = true)); [|exact SA].
        intros s Hs. destruct (statement_facts s Hs) as [_ [_ [H3 H4]]].
        rewrite H3. apply plain_tests. exact H4.
      - apply (Forall_impl _ (P := fun s => isStatement s = true)); [|exact SB].
        intros s Hs. destruct (statement_facts s Hs) as [_ [_ [H3 H4]]].
        rewrite H3. apply plain_tests. exact H4. }
  cbn [bind].
  rewrite (cleanup_quiet _ (join_avoid ruleChar _ eq_refl (Q1 _ Ar Br))).
  reflexivity.
Qed.

(** The two ends of a text after the rule for empty lines. *)
Lemma collapse_first : forall s,
  s <> [] -> hd sp s <> nl ->
  collapseFrom 0%nat None s <> [] /\ hd sp (collapseFrom 0%nat None s) <> nl.
Proof.
  intros [|c s] Hs Hc; [contradiction|]. simpl in Hc.
  rewrite (collapseFrom_other None c s Hc). split; [discriminate|exact Hc].
Qed.

Lemma collapse_last : forall s,
  s <> [] -> last s sp <> nl ->
  collapseFrom 0%nat None s <> [] /\ last (collapseFrom 0%nat None s) sp <> nl.
Proof.
  assert (G : forall n s, (length s <= n)%nat -> s <> [] -> last s sp <> nl ->
             collapseFrom 0%nat None s <> [] /\
             last (collapseFrom 0%nat None s) sp <> nl).
  { induction n as [|n IH]; intros s Hn Hs Hl.
    - destruct s; [contradiction|simpl in Hn; lia].
    - rewrite collapse_unfold. destruct (run_split s) as [Es Hd].
      destruct (dropWhile isNl s) as [|d u] eqn:Eu.
      + exfalso. apply Hl. rewrite Es, app_nil_r.
        destruct (length (takeWhile isNl s)) as [|j].
        * rewrite Es in Hs. simpl in Hs. contradiction.
        * clear. induction j; [reflexivity|]. simpl in *. exact IHj.
      + split; [destruct (collapsedRun _); discriminate|].
        rewrite last_app_cons.
        destruct u as [|e u]; [exact Hd|].
        assert (Hu : last (e :: u) sp <> nl).
        { rewrite Es in Hl. rewrite last_app_cons in Hl. exact Hl. }
        destruct (IH (e :: u)) as [N L]; [|discriminate|exact Hu|].
        * pose proof (dropWhile_length isNl s) as Ld. rewrite Eu in Ld.
          simpl in *. lia.
        * destruct (collapseFrom 0%nat None (e :: u)) eqn:Ec;
            [contradiction|exact L]. }
  intros s. apply (G (length s)). lia.
Qed.




(** ** An [else] and its [if] *)

(** The body of a block, nested blocks included, leaves the variables of
    the scan as the opening line has set them. *)
Lemma scanLines_blockBody : forall body,
  blockBody body ->
  forall lvl ie ia ty cbs prev,
    (ie || ia)%bool = true ->
    scanLines (Scan lvl ie ia (Frame ty lvl :: cbs)) prev body
    = Scan lvl ie ia (Frame ty lvl :: cbs).
Proof.
  intros body H.
  induction H as [|raw more Hp _ IH|raw more He _ IH
                  |opener inner closer more Ho _ IHi Hc _ IHm];
    intros lvl ie ia ty cbs prev Ha.
  - reflexivity.
  - cbn [scanLines]. rewrite (scanLine_plain _ _ _ Hp). apply IH. exact Ha.
  - cbn [scanLines].
    rewrite (scanLine_else (Scan lvl ie ia (Frame ty lvl :: cbs)) prev raw
               (Frame ty lvl) cbs Ha He eq_refl).
    apply IH. exact Ha.
  - cbn [scanLines].
    rewrite (scanLine_opener (Scan lvl ie ia (Frame ty lvl :: cbs)) prev
               opener Ha Ho).
    cbn [fst indentLevel inEquation inAlgorithm controlBlocks].
    rewrite scanLines_app, (IHi _ _ _ _ _ _ Ha). cbn [scanLines].
    rewrite (scanLine_closer
               (Scan (lvl + 1) ie ia
                  (Frame (hd [] (split sp (trim opener))) (lvl + 1)
                     :: Frame ty lvl :: cbs))
               None closer _ _ Ha Hc eq_refl).
    cbn [fst indentLevel inEquation inAlgorithm].
    replace (lvl + 1 - 1) with lvl by lia. apply IHm. exact Ha.
Qed.

(** In the scan the opening line of a block and an [else]/[elseif] of
    the block are pushed with the same indentation. *)
Lemma scan_aligns_else : forall indent st prev ifl body elsel p,
  sectionActive st = true ->
  isControlStart (trim ifl) = true ->
  blockBody body ->
  isElse (trim elsel) = true ->
  emit indent (snd (scanLine st prev ifl)) (trim ifl)
    = (pad <- jsRepeat indent (indentLevel st + 1) ;; Ok (pad ++ trim ifl)) /\
  emit indent (snd (scanLine (scanLines st prev (ifl :: body)) p elsel))
       (trim elsel)
    = (pad <- jsRepeat indent (indentLevel st + 1) ;; Ok (pad ++ trim elsel)).
Proof.
  intros indent [lvl ie ia cbs] prev ifl body elsel p Ha Ho Hb He.
  pose proof (scanLine_opener _ prev ifl Ha Ho) as E1.
  cbn [indentLevel inEquation inAlgorithm controlBlocks] in *.
  unfold sectionActive in Ha. cbn [inEquation inAlgorithm] in Ha.
  split.
  - rewrite E1. reflexivity.
  - cbn [scanLines]. rewrite E1. cbn [fst].
    rewrite (scanLines_blockBody body Hb _ _ _ _ _ _ Ha).
    rewrite (scanLine_else
               (Scan (lvl + 1) ie ia
                  (Frame (hd [] (split sp (trim ifl))) (lvl + 1) :: cbs))
               p elsel _ _ Ha He eq_refl).
    reflexivity.
Qed.

Lemma harmless_line : forall l : jsstring,
  l <> [] -> (forall x, In x l -> harmless x = true) ->
  l <> [] /\ forallb harmless l = true.
Proof.
  intros l Hn H. split; [exact Hn|]. apply forallb_forall. exact H.
Qed.

(** The whole formatter on an [if] with statements in both branches, at
    the top of an equation section, for an indentation of [S n]
    spaces. *)
Lemma format_if_else_at : forall tw n c b1 b2 options,
  orDefault (tabWidth options) 2 = tw ->
  jsRepeat [sp] tw = Ok (repeat sp (S n)) ->
  jsRepeatNum [sp] (padCount tw (str "equation")) = Ok (repeat sp (S n)) ->
  forallb harmless c = true ->
  Forall (fun s => isStatement s = true) b1 ->
  Forall (fun s => isStatement s = true) b2 ->
  formatModelica
    (join nl (str "equation" :: (str "if " ++ c ++ str " then") ::
              b1 ++ str "else" :: b2 ++ [str "end if;"])) options
  = Ok (join nl (str "equation" :: [] ::
                 (repeat sp (S n) ++ str "if " ++ c ++ str " then") ::
                 map (app (repeat sp (S n) ++ repeat sp (S n))) b1 ++
                 (repeat sp (S n) ++ str "else") ::
                 map (app (repeat sp (S n) ++ repeat sp (S n))) b2 ++
                 [repeat sp (S n) ++ str "end if;"])).
Proof.
  intros tw n c b1 b2 options Ho Hi Hp Hc S1 S2.
  assert (C1 : forall x, In x c -> harmless x = true)
    by (apply forallb_forall; exact Hc).
  set (opener := str "if " ++ c ++ str " then").
  set (ind := repeat sp (S n)).
  assert (Ei : forallb isSpace ind = true).
  { apply forallb_forall. intros x Hx. apply repeat_spec in Hx. subst x.
    reflexivity. }
  assert (Ej : forallb harmless (ind ++ ind) = true).
  { apply forallb_forall. unfold ind. chars. }
  assert (Ek : forallb isSpace (ind ++ ind) = true)
    by (rewrite forallb_app, Ei; reflexivity).
  assert (Et : trim opener = opener).
  { apply trim_fixed; [reflexivity|]. unfold opener.
    rewrite !rev_app_distr. reflexivity. }
  assert (Eo : isControlStart opener = true).
  { unfold isControlStart, starts, ends, opener.
    rewrite startsWith_app.
    change (str " then") with ([sp] ++ str "then").
    rewrite !app_assoc, endsWith_app. reflexivity. }
  assert (Eh : isThenHeader opener = true).
  { unfold isThenHeader, starts, ends, opener.
    rewrite startsWith_app.
    change (str " then") with ([sp] ++ str "then").
    rewrite !app_assoc, endsWith_app. reflexivity. }
  assert (Ho1 : forall x, In x opener -> harmless x = true)
    by (unfold opener; chars).
  (* the lines of the input, but the header *)
  assert (F0 : Forall (fun l => l <> [] /\ forallb harmless l = true)
                 (opener :: b1 ++ str "else" :: b2 ++ [str "end if;"])).
  { constructor; [apply harmless_line; [discriminate|exact Ho1]|].
    apply Forall_app. split; [apply (Forall_impl _ statement_line); exact S1|].
    constructor; [split; [discriminate|reflexivity]|].
    apply Forall_app. split; [apply (Forall_impl _ statement_line); exact S2|].
    constructor; [split; [discriminate|reflexivity]|constructor]. }
  (* the lines after the scan, but the header *)
  assert (F1 : Forall (fun l => l <> [] /\ forallb harmless l = true)
                 ((ind ++ opener) :: map (app (ind ++ ind)) b1 ++
                  (ind ++ str "else") :: map (app (ind ++ ind)) b2 ++
                  [str "end if;"])).
  { constructor.
    { apply harmless_line; [discriminate|unfold ind, opener; chars]. }
    apply Forall_app. split; [apply statement_lines; assumption|].
    constructor.
    { apply harmless_line; [discriminate|unfold ind; chars]. }
    apply Forall_app. split; [apply statement_lines; assumption|].
    constructor; [split; [discriminate|reflexivity]|constructor]. }
  (* the lines after the second pass, but the header and the empty line *)
  assert (F3 : Forall (fun l => l <> [] /\ forallb harmless l = true)
                 ((ind ++ opener) :: map (app (ind ++ ind)) b1 ++
                  (ind ++ str "else") :: map (app (ind ++ ind)) b2 ++
                  [ind ++ str "end if;"])).
  { constructor.
    { apply harmless_line; [discriminate|unfold ind, opener; chars]. }
    apply Forall_app. split; [apply statement_lines; assumption|].
    constructor.
    { apply harmless_line; [discriminate|unfold ind; chars]. }
    apply Forall_app. split; [apply statement_lines; assumption|].
    constructor; [|constructor].
    apply harmless_line; [discriminate|unfold ind; chars]. }
  destruct (harmless_lines _ F0) as [R0 [_ [N0 _]]].
  destruct (harmless_lines _ F1) as [R1 [H1 [N1 E1]]].
  destruct (harmless_lines _ F3) as [R3 [_ [N3 _]]].
  assert (Qe : forall (P : ascii -> bool) ls,
            (forall x, In x (str "equation") -> P x = false) ->
            Forall (fun l => forall x, In x l -> P x = false) ls ->
            Forall (fun l => forall x, In x l -> P x = false)
                   (str "equation" :: ls))
    by (intros P ls He Hl; constructor; assumption).
  assert (Qb : forall (P : ascii -> bool) ls,
            Forall (fun l => forall x, In x l -> P x = false) ls ->
            Forall (fun l : jsstring => forall x, In x l -> P x = false)
                   ([] :: ls))
    by (intros P ls Hl; constructor; [intros x []|assumption]).
  assert (Er : forall x, In x (str "equation") -> ruleChar x = false) by chars.
  assert (En : forall x, In x (str "equation") -> isNl x = false) by chars.
  unfold formatModelica. cbv zeta. rewrite Ho, Hi. cbn [bind].
  fold ind. fold opener.
  rewrite (entry_quiet _ (join_avoid ruleChar _ eq_refl (Qe _ _ Er R0))).
  rewrite split_join; [|discriminate|exact (Qe _ _ En N0)].
  rewrite map_same
    by (apply (Forall_impl _ preprocessLine_quiet); exact (Qe _ _ Er R0)).
  set (ty := hd [] (split sp (trim opener))).
  set (inBlock := Scan 1 true false [Frame ty 1]).
  assert (Esc : indentLines ind scanStart None
                  (str "equation" :: opener ::
                   b1 ++ str "else" :: b2 ++ [str "end if;"])
                = Ok (str "equation" :: (ind ++ opener) ::
                      map (app (ind ++ ind)) b1 ++ (ind ++ str "else") ::
                      map (app (ind ++ ind)) b2 ++ [str "end if;"])).
  { apply (indentLines_cons _ _ _ _ _ (Scan 0 true false []) (Some 0));
      [reflexivity|reflexivity|].
    apply (indentLines_cons _ _ _ _ _ inBlock (Some 1)).
    { apply (scanLine_opener (Scan 0 true false [])); [reflexivity|].
      rewrite Et. exact Eo. }
    { rewrite Et. apply emit_levels. }
    apply (indentLines_statements ind (ind ++ ind) b1 _ inBlock);
      [reflexivity|intros l; apply emit_levels|exact S1
      |apply harmless_no_continuation; [exact Et|exact Ho1]|].
    intros p.
    apply (indentLines_cons _ _ _ _ _ inBlock (Some 1)).
    { apply (scanLine_else inBlock _ _ (Frame ty 1) []); reflexivity. }
    { apply emit_levels. }
    apply (indentLines_statements ind (ind ++ ind) b2 _ inBlock);
      [reflexivity|intros l; apply emit_levels|exact S2|reflexivity|].
    intros q.
    apply (indentLines_cons _ _ _ _ _ (Scan 0 true false []) (Some 0)).
    { apply (scanLine_closer inBlock _ _ (Frame ty 1) []); reflexivity. }
    { reflexivity. }
    reflexivity. }
  rewrite Esc. cbn [bind].
  rewrite (normalize_quiet _ (join_avoid ruleChar _ eq_refl (Qe _ _ Er R1))).
  change (collapseBlankLines ?t) with (collapseFrom 0%nat None t).
  rewrite collapse_join.
  2:{ constructor; [split; [discriminate|exact En]|exact E1]. }
  rewrite join_cons by discriminate.
  rewrite header_rule.
  2:{ apply (forallb_without _ "i"%char); [|reflexivity].
      rewrite join_cons by (destruct b1; discriminate).
      apply in_or_app. left. apply in_or_app. right. left. reflexivity. }
  2:{ exact (join_avoid headerChar _ eq_refl H1). }
  assert (E2 : forall R : list jsstring, R <> [] ->
            str "equation" ++ nl :: nl :: join nl R
            = join nl (str "equation" :: [] :: R)).
  { intros R HR. rewrite (join_cons nl (str "equation")) by discriminate.
    rewrite (join_cons nl []) by exact HR. reflexivity. }
  rewrite E2 by discriminate.
  rewrite split_join; [|discriminate|exact (Qe _ _ En (Qb _ _ N1))].
  set (sec := Pass true (headerLevel tw (str "equation"))).
  assert (Ep : forall l, reindent tw sec l = Ok (ind ++ l)).
  { intros l. unfold reindent.
    change (PrimFloat.mul (PrimFloat.add (eqIndentLevel sec) (num 1)) (num tw))
      with (padCount tw (str "equation")).
    rewrite Hp. reflexivity. }
  assert (Ec : forall raw,
            isControlLine (trim raw) = true ->
            correctLine tw sec raw = Ok (sec, ind ++ trim raw)).
  { intros raw H. rewrite (correctLine_control tw sec raw eq_refl H), Ep.
    reflexivity. }
  assert (Eps : correctLines tw passStart
                  (str "equation" :: [] :: (ind ++ opener) ::
                   map (app (ind ++ ind)) b1 ++ (ind ++ str "else") ::
                   map (app (ind ++ ind)) b2 ++ [str "end if;"])
                = Ok (str "equation" :: [] :: (ind ++ opener) ::
                      map (app (ind ++ ind)) b1 ++ (ind ++ str "else") ::
                      map (app (ind ++ ind)) b2 ++ [ind ++ str "end if;"])).
  { apply (correctLines_cons _ _ _ _ sec);
      [apply correctLine_header; reflexivity|].
    apply (correctLines_cons _ _ _ _ sec);
      [apply correctLine_other; reflexivity|].
    apply (correctLines_cons _ _ _ _ sec).
    { rewrite Ec; rewrite (trim_pad _ _ Ei), Et; [reflexivity|].
      unfold isControlLine. rewrite Eh. reflexivity. }
    apply correctLines_plain; [apply statements_plain; assumption|].
    apply (correctLines_cons _ _ _ _ sec).
    { rewrite Ec; rewrite (trim_pad _ _ Ei); reflexivity. }
    apply correctLines_plain; [apply statements_plain; assumption|].
    apply (correctLines_cons _ _ _ _ sec).
    { rewrite Ec; reflexivity. }
    reflexivity. }
  rewrite Eps. cbn [bind].
  rewrite (cleanup_quiet _
             (join_avoid ruleChar _ eq_refl (Qe _ _ Er (Qb _ _ R3)))).
  reflexivity.
Qed.

Lemma format_if_else : forall c b1 b2 options,
  1 <= orDefault (tabWidth options) 2 <= 8 ->
  forallb harmless c = true ->
  Forall (fun s => isStatement s = true) b1 ->
  Forall (fun s => isStatement s = true) b2 ->
  formatModelica
    (join nl (str "equation" :: (str "if " ++ c ++ str " then") ::
              b1 ++ str "else" :: b2 ++ [str "end if;"])) options
  = (let pad := repeat sp (Z.to_nat (orDefault (tabWidth options) 2)) in
     Ok (join nl (str "equation" :: [] ::
                  (pad ++ str "if " ++ c ++ str " then") ::
                  map (app (pad ++ pad)) b1 ++
                  (pad ++ str "else") ::
                  map (app (pad ++ pad)) b2 ++
                  [pad ++ str "end if;"]))).
Proof.
  intros c b1 b2 options Htw Hc H1 H2. cbv zeta.
  destruct (pad_of_width _ Htw) as [Hi Hp].
  remember (orDefault (tabWidth options) 2) as tw eqn:Ho.
  destruct (Z.to_nat tw) as [|n] eqn:En; [lia|].
  apply (format_if_else_at tw n c b1 b2 options); auto.
Qed.




(** * The manifest synchronisation script *)

Arguments str : simpl never.

Lemma streq_refl : forall a, streq a a = true.
Proof.
  induction a as [|x a IH]; simpl; [reflexivity|].
  rewrite Ascii.eqb_refl. exact IH.
Qed.

Lemma get_set_same : forall props k v, Sync.get (Sync.set props k v) k = v.
Proof.
  induction props as [|[k' v'] more IH]; intros k v; simpl.
  - rewrite streq_refl. reflexivity.
  - destruct (streq k' k) eqn:E; simpl; rewrite E; auto.
Qed.

Lemma get_set_other : forall props k v k2,
  streq k k2 = false ->
  Sync.get (Sync.set props k v) k2 = Sync.get props k2.
Proof.
  induction props as [|[k' v'] more IH]; intros k v k2 H; simpl.
  - rewrite H. reflexivity.
  - destruct (streq k' k) eqn:E; simpl.
    + apply streq_eq in E. subst k'. rewrite H. reflexivity.
    + destruct (streq k' k2); auto.
Qed.

Lemma strictNe_refl : forall v,
  Sync.primitive v = true -> Sync.strictNe v v = false.
Proof.
  intros [| |b|x|s|l|ps] H; try reflexivity; try discriminate.
  - destruct b; reflexivity.
  - change (negb (PrimFloat.eqb x x) = false).
    change (PrimFloat.eqb x x = true) in H. rewrite H. reflexivity.
  - change (negb (streq s s) = false). rewrite streq_refl. reflexivity.
Qed.

(** The metadata after one of the three statements, at the key of the
    statement and at another key. *)
Lemma syncField_same : forall k pkg t ch props,
  Sync.get t (str "metadata") = Sync.VObj props ->
  Sync.primitive (Sync.get pkg k) = true ->
  exists props',
    Sync.get (fst (Sync.syncField k pkg (t, ch))) (str "metadata")
      = Sync.VObj props' /\
    Sync.strictNe (Sync.get props' k) (Sync.get pkg k) = false.
Proof.
  intros k pkg t ch props Hm Hp. unfold Sync.syncField. rewrite Hm. simpl.
  destruct (Sync.strictNe (Sync.get props k) (Sync.get pkg k)) eqn:E; simpl.
  - rewrite get_set_same. eexists. split; [reflexivity|].
    rewrite get_set_same. apply strictNe_refl. exact Hp.
  - exists props. auto.
Qed.

Lemma syncField_other : forall k pkg t ch k2,
  streq k k2 = false ->
  Sync.prop (Sync.get (fst (Sync.syncField k pkg (t, ch))) (str "metadata")) k2
  = Sync.prop (Sync.get t (str "metadata")) k2.
Proof.
  intros k pkg t ch k2 H. unfold Sync.syncField.
  destruct (Sync.strictNe _ _); simpl; [|reflexivity].
  rewrite get_set_same.
  destruct (Sync.get t (str "metadata")); simpl; try reflexivity.
  apply get_set_other. exact H.
Qed.

Lemma syncField_top : forall k pkg t ch k2,
  streq (str "metadata") k2 = false ->
  Sync.get (fst (Sync.syncField k pkg (t, ch))) k2 = Sync.get t k2.
Proof.
  intros k pkg t ch k2 H. unfold Sync.syncField.
  destruct (Sync.strictNe _ _); simpl; [|reflexivity].
  apply get_set_other. exact H.
Qed.

Lemma syncField_changes : forall k pkg t ch,
  map Sync.field (snd (Sync.syncField k pkg (t, ch))) =
  map Sync.field ch ++
  (if Sync.strictNe (Sync.prop (Sync.get t (str "metadata")) k)
                    (Sync.get pkg k)
   then [k] else []).
Proof.
  intros k pkg t ch. unfold Sync.syncField.
  destruct (Sync.strictNe _ _); simpl.
  - rewrite map_app. reflexivity.
  - rewrite app_nil_r. reflexivity.
Qed.

Lemma syncField_noop : forall k pkg t ch,
  Sync.strictNe (Sync.prop (Sync.get t (str "metadata")) k) (Sync.get pkg k)
    = false ->
  Sync.syncField k pkg (t, ch) = (t, ch).
Proof.
  intros k pkg t ch H. unfold Sync.syncField. rewrite H. reflexivity.
Qed.

Lemma ensureMetadata_storable : forall t,
  Sync.storable (Sync.get t (str "metadata")) = true ->
  exists props,
    Sync.get (Sync.ensureMetadata t) (str "metadata") = Sync.VObj props.
Proof.
  intros t H. unfold Sync.ensureMetadata.
  destruct (Sync.falsy (Sync.get t (str "metadata"))) eqn:F.
  - rewrite get_set_same. eauto.
  - destruct (Sync.get t (str "metadata")); simpl in *;
      try (rewrite F in H; discriminate); try discriminate; eauto.
Qed.

Ltac sync_keys :=
  match goal with
  | H : In _ Sync.keys |- _ =>
      simpl in H; destruct H as [H|[H|[H|[]]]]; subst
  end.

(** The run ends with an object under [metadata] whose three properties
    are identical to those of the package. *)
Lemma sync_agree : forall pkg ts,
  Sync.storable (Sync.get ts (str "metadata")) = true ->
  (forall k', In k' Sync.keys -> Sync.primitive (Sync.get pkg k') = true) ->
  exists props,
    Sync.get (fst (fst (Sync.sync pkg ts))) (str "metadata")
      = Sync.VObj props /\
    forall k, In k Sync.keys ->
      Sync.strictNe (Sync.get props k) (Sync.get pkg k) = false.
Proof.
  intros pkg ts Hs Hp. unfold Sync.sync. cbv zeta.
  destruct (ensureMetadata_storable ts Hs) as [p0 H0].
  set (t0 := Sync.ensureMetadata ts) in *.
  destruct (syncField_same (str "version") pkg t0 [] p0 H0
              (Hp _ (or_introl eq_refl))) as [p1 [H1 A1]].
  destruct (Sync.syncField (str "version") pkg (t0, [])) as [t1 c1].
  cbn [fst] in H1.
  destruct (syncField_same (str "license") pkg t1 c1 p1 H1
              (Hp _ (or_intror (or_introl eq_refl)))) as [p2 [H2 A2]].
  pose proof (syncField_other (str "license") pkg t1 c1 (str "version")
                eq_refl) as O21.
  destruct (Sync.syncField (str "license") pkg (t1, c1)) as [t2 c2].
  cbn [fst] in H2, O21.
  destruct (syncField_same (str "description") pkg t2 c2 p2 H2
              (Hp _ (or_intror (or_intror (or_introl eq_refl)))))
    as [p3 [H3 A3]].
  pose proof (syncField_other (str "description") pkg t2 c2 (str "version")
                eq_refl) as O31.
  pose proof (syncField_other (str "description") pkg t2 c2 (str "license")
                eq_refl) as O32.
  destruct (Sync.syncField (str "description") pkg (t2, c2)) as [t3 c3].
  cbn [fst snd] in *.
  rewrite H1, H2 in O21. rewrite H2, H3 in O31, O32.
  cbn [Sync.prop] in O21, O31, O32.
  exists p3. split; [exact H3|]. intros k Hk.
  sync_keys.
  - rewrite O31, O21. exact A1.
  - rewrite O32. exact A2.
  - exact A3.
Qed.

(** X12. After a run of the script the three properties of [metadata]
    are identical ([===]) to those of the package, when [metadata] was
    an object or was missing, and the three package properties are
    strings, numbers, booleans, null or absent. *)
Theorem sync_makes_metadata_agree : forall packageJson treeSitterJson k,
  Sync.storable (Sync.get treeSitterJson (str "metadata")) = true ->
  (forall k', In k' Sync.keys ->
     Sync.primitive (Sync.get packageJson k') = true) ->
  In k Sync.keys ->
  Sync.strictNe
    (Sync.prop (Sync.get (fst (fst (Sync.sync packageJson treeSitterJson)))
                         (str "metadata")) k)
    (Sync.get packageJson k) = false.
Proof.
  intros pkg ts k Hs Hp Hk.
  destruct (sync_agree pkg ts Hs Hp) as [props [Hm Ha]].
  rewrite Hm. apply Ha. exact Hk.
Qed.

Lemma ensureMetadata_top : forall ts k2,
  streq (str "metadata") k2 = false ->
  Sync.get (Sync.ensureMetadata ts) k2 = Sync.get ts k2.
Proof.
  intros ts k2 H. unfold Sync.ensureMetadata.
  destruct (Sync.falsy _); [apply get_set_other; exact H|reflexivity].
Qed.

(** X13. The script reports exactly the keys at which [metadata] (the
    empty object when it was missing) differs ([!==]) from the package,
    in the order version, license, description, and it writes the
    document exactly when there is such a key. *)
Theorem sync_reports_differences : forall packageJson treeSitterJson,
  map Sync.field (snd (fst (Sync.sync packageJson treeSitterJson))) =
    filter (fun k =>
              Sync.strictNe
                (Sync.prop (Sync.get (Sync.ensureMetadata treeSitterJson)
                                     (str "metadata")) k)
                (Sync.get packageJson k))
           Sync.keys /\
  snd (Sync.sync packageJson treeSitterJson) =
    existsb (fun k =>
               Sync.strictNe
                 (Sync.prop (Sync.get (Sync.ensureMetadata treeSitterJson)
                                      (str "metadata")) k)
                 (Sync.get packageJson k))
            Sync.keys.
Proof.
  intros pkg ts. unfold Sync.sync. cbv zeta.
  set (t0 := Sync.ensureMetadata ts).
  pose proof (syncField_changes (str "version") pkg t0 []) as C1.
  pose proof (syncField_other (str "version") pkg t0 [] (str "license")
                eq_refl) as O12.
  pose proof (syncField_other (str "version") pkg t0 [] (str "description")
                eq_refl) as O13.
  destruct (Sync.syncField (str "version") pkg (t0, [])) as [t1 c1].
  pose proof (syncField_changes (str "license") pkg t1 c1) as C2.
  pose proof (syncField_other (str "license") pkg t1 c1 (str "description")
                eq_refl) as O23.
  destruct (Sync.syncField (str "license") pkg (t1, c1)) as [t2 c2].
  pose proof (syncField_changes (str "description") pkg t2 c2) as C3.
  destruct (Sync.syncField (str "description") pkg (t2, c2)) as [t3 c3].
  cbn [fst snd] in *.
  rewrite O23, O13 in C3. rewrite O12 in C2.
  assert (L : length c3 = length (map Sync.field c3))
    by (rewrite length_map; reflexivity).
  rewrite L, C3, C2, C1. cbn [map app]. unfold Sync.keys. cbn [filter existsb].
  destruct (Sync.strictNe _ (Sync.get pkg (str "version")));
    destruct (Sync.strictNe _ (Sync.get pkg (str "license")));
    destruct (Sync.strictNe _ (Sync.get pkg (str "description")));
    split; reflexivity.
Qed.

(** ** A second run

    A number that is identical ([===]) to a finite number is finite, and
    is still identical to it when minus zero has become zero. *)
Lemma finite_eqb : forall x y,
  PrimFloat.is_finite y = true -> PrimFloat.eqb x y = true ->
  PrimFloat.is_finite x = true /\
  PrimFloat.eqb (if PrimFloat.eqb x PrimFloat.zero then PrimFloat.zero else x) y
    = true.
Proof.
  intros x y. unfold PrimFloat.is_finite, PrimFloat.is_nan, PrimFloat.is_infinity.
  destruct (PrimFloat.eqb x PrimFloat.zero) eqn:Ez;
    rewrite ?FloatAxioms.eqb_spec, ?FloatAxioms.abs_spec in *;
  change (Prim2SF PrimFloat.infinity) with (S754_infinity false);
  change (Prim2SF PrimFloat.zero) with (S754_zero false) in *;
  destruct (Prim2SF x) as [sx|sx| |sx mx ex], (Prim2SF y) as [sy|sy| |sy my ey];
    simpl in *; intros H1 H2; try discriminate; auto.
  all: unfold SFeqb, SFcompare in *; simpl in *.
  all: try (destruct sx; discriminate).
  all: try (destruct sx, sy; simpl in *; try discriminate; auto; fail).
  all: rewrite ?Z.compare_refl, ?Pos.compare_cont_refl.
  all: try (destruct sx; simpl; auto; fail).
Qed.

Lemma writable_primitive : forall v,
  Sync.writable v = true -> Sync.primitive v = true.
Proof.
  intros [| |b|x|s|l|ps] H; try reflexivity; try discriminate.
  simpl in *. unfold PrimFloat.is_finite, PrimFloat.is_nan in H.
  destruct (PrimFloat.eqb x x); [reflexivity|discriminate].
Qed.

(** What is read back agrees with the package where what was written
    did. *)
Lemma reread_agree : forall v w,
  Sync.strictNe v w = false -> Sync.writable w = true ->
  Sync.strictNe (Sync.reread v) w = false.
Proof.
  intros [| |b|x|s|l|ps] [| |b'|y|s'|l'|ps'] H Hw; try discriminate;
    try exact H.
  simpl in Hw. apply negb_false_iff in H. simpl in H.
  destruct (finite_eqb x y Hw H) as [Fx Ex].
  simpl. rewrite Fx. apply negb_false_iff. exact Ex.
Qed.

(** The properties of an object that is read back. *)
Lemma get_reread_found : forall ps k,
  Sync.get ps k <> Sync.VUndefined ->
  Sync.get (Sync.rereadProps ps) k = Sync.reread (Sync.get ps k).
Proof.
  induction ps as [|[k' v'] more IH]; intros k H; [contradiction|].
  simpl in H. cbn [Sync.rereadProps flat_map].
  fold (Sync.rereadProps more). cbn [Sync.get].
  destruct (streq k' k) eqn:E.
  - destruct v'; try contradiction; cbn [app Sync.get]; rewrite E; reflexivity.
  - destruct v'; cbn [app Sync.get]; rewrite ?E; apply IH; exact H.
Qed.

Lemma get_reread_none : forall ps k,
  existsb (fun kv => streq (fst kv) k) ps = false ->
  Sync.get (Sync.rereadProps ps) k = Sync.VUndefined.
Proof.
  induction ps as [|[k' v'] more IH]; intros k H; [reflexivity|].
  cbn [existsb fst] in H. apply orb_false_elim in H. destruct H as [E H].
  cbn [Sync.rereadProps flat_map]. fold (Sync.rereadProps more).
  destruct v'; cbn [app Sync.get]; rewrite ?E; apply IH; exact H.
Qed.

Lemma get_reread_absent : forall ps k,
  Sync.distinct ps = true ->
  Sync.get ps k = Sync.VUndefined ->
  Sync.get (Sync.rereadProps ps) k = Sync.VUndefined.
Proof.
  induction ps as [|[k' v'] more IH]; intros k Hd H; [reflexivity|].
  cbn [Sync.distinct] in Hd. apply andb_prop in Hd. destruct Hd as [Hk Hd].
  apply negb_true_iff in Hk.
  cbn [Sync.get] in H. cbn [Sync.rereadProps flat_map].
  fold (Sync.rereadProps more).
  destruct (streq k' k) eqn:E.
  - subst v'. cbn [app]. apply streq_eq in E. subst k'.
    apply get_reread_none. exact Hk.
  - destruct v'; cbn [app Sync.get]; rewrite ?E; apply IH; auto.
Qed.

Lemma streq_sym : forall a b, streq a b = streq b a.
Proof.
  induction a as [|x a IH]; destruct b as [|y b]; simpl; try reflexivity.
  rewrite Ascii.eqb_sym, IH. reflexivity.
Qed.

(** An assignment keeps the names of the properties distinct. *)
Lemma keys_set : forall ps k v k',
  existsb (fun kv => streq (fst kv) k') (Sync.set ps k v) = true ->
  existsb (fun kv => streq (fst kv) k') ps = true \/ streq k k' = true.
Proof.
  induction ps as [|[k0 v0] more IH]; intros k v k' H.
  - simpl in H. rewrite orb_false_r in H. right. exact H.
  - cbn [Sync.set] in H. destruct (streq k0 k) eqn:E.
    + left. exact H.
    + cbn [existsb fst] in *. apply orb_prop in H. destruct H as [H|H].
      * left. rewrite H. reflexivity.
      * destruct (IH _ _ _ H) as [G|G]; [left|right; exact G].
        rewrite G. apply orb_true_r.
Qed.

Lemma distinct_set : forall ps k v,
  Sync.distinct ps = true -> Sync.distinct (Sync.set ps k v) = true.
Proof.
  induction ps as [|[k0 v0] more IH]; intros k v H; [reflexivity|].
  cbn [Sync.distinct] in H. apply andb_prop in H. destruct H as [Hk Hd].
  cbn [Sync.set]. destruct (streq k0 k) eqn:E.
  - cbn [Sync.distinct]. rewrite Hk, Hd. reflexivity.
  - cbn [Sync.distinct]. rewrite (IH k v Hd), andb_true_r.
    apply negb_true_iff in Hk. apply negb_true_iff.
    destruct (existsb _ (Sync.set more k v)) eqn:G; [|reflexivity].
    apply keys_set in G. destruct G as [G|G]; [congruence|].
    rewrite streq_sym in G. congruence.
Qed.

Lemma syncField_distinct : forall k pkg t ch props,
  Sync.get t (str "metadata") = Sync.VObj props ->
  Sync.distinct props = true ->
  exists props',
    Sync.get (fst (Sync.syncField k pkg (t, ch))) (str "metadata")
      = Sync.VObj props' /\
    Sync.distinct props' = true.
Proof.
  intros k pkg t ch props Hm Hd. unfold Sync.syncField. rewrite Hm.
  cbn [Sync.prop Sync.setProp].
  destruct (Sync.strictNe (Sync.get props k) (Sync.get pkg k)); cbn [fst].
  - rewrite get_set_same. eexists. split; [reflexivity|].
    apply distinct_set. exact Hd.
  - exists props. auto.
Qed.

Lemma ensureMetadata_distinct : forall t,
  Sync.storable (Sync.get t (str "metadata")) = true ->
  Sync.wellFormed (Sync.get t (str "metadata")) = true ->
  exists props,
    Sync.get (Sync.ensureMetadata t) (str "metadata") = Sync.VObj props /\
    Sync.distinct props = true.
Proof.
  intros t H W. unfold Sync.ensureMetadata.
  destruct (Sync.falsy (Sync.get t (str "metadata"))) eqn:F.
  - rewrite get_set_same. exists []. auto.
  - destruct (Sync.get t (str "metadata")); simpl in *;
      try (rewrite F in H; discriminate); try discriminate; eauto.
Qed.

Lemma sync_distinct : forall pkg ts props,
  Sync.storable (Sync.get ts (str "metadata")) = true ->
  Sync.wellFormed (Sync.get ts (str "metadata")) = true ->
  Sync.get (fst (fst (Sync.sync pkg ts))) (str "metadata") = Sync.VObj props ->
  Sync.distinct props = true.
Proof.
  intros pkg ts props Hs Hw. unfold Sync.sync. cbv zeta.
  destruct (ensureMetadata_distinct ts Hs Hw) as [p0 [H0 D0]].
  set (t0 := Sync.ensureMetadata ts) in *.
  destruct (syncField_distinct (str "version") pkg t0 [] p0 H0 D0)
    as [p1 [H1 D1]].
  destruct (Sync.syncField (str "version") pkg (t0, [])) as [t1 c1].
  cbn [fst] in H1.
  destruct (syncField_distinct (str "license") pkg t1 c1 p1 H1 D1)
    as [p2 [H2 D2]].
  destruct (Sync.syncField (str "license") pkg (t1, c1)) as [t2 c2].
  cbn [fst] in H2.
  destruct (syncField_distinct (str "description") pkg t2 c2 p2 H2 D2)
    as [p3 [H3 D3]].
  destruct (Sync.syncField (str "description") pkg (t2, c2)) as [t3 c3].
  cbn [fst snd] in *. intros E. rewrite H3 in E. inversion E. subst. exact D3.
Qed.

(** X14. A second run of the script, on what the first run has left in
    [tree-sitter.json] (what [JSON.parse] reads from the text that
    [JSON.stringify] has written when the first run has written, the
    document as it was otherwise) and with the same package, pushes no
    change and does not write; after a first run that has written it
    holds in memory exactly what it has read. [metadata] is an object
    (with distinct property names) or is missing or falsy, and the three
    package properties are strings, finite numbers, booleans, null or
    absent. *)
Theorem sync_idempotent : forall packageJson treeSitterJson,
  Sync.storable (Sync.get treeSitterJson (str "metadata")) = true ->
  Sync.wellFormed (Sync.get treeSitterJson (str "metadata")) = true ->
  (forall k, In k Sync.keys ->
     Sync.writable (Sync.get packageJson k) = true) ->
  Sync.sync packageJson (Sync.onDisk packageJson treeSitterJson)
  = (if snd (Sync.sync packageJson treeSitterJson)
     then Sync.onDisk packageJson treeSitterJson
     else fst (fst (Sync.sync packageJson treeSitterJson)),
     [], false).
Proof.
  intros pkg ts Hs Hw Hp. unfold Sync.onDisk.
  destruct (snd (Sync.sync pkg ts)) eqn:Ew.
  - assert (Hp' : forall k, In k Sync.keys ->
                   Sync.primitive (Sync.get pkg k) = true)
      by (intros k Hk; apply writable_primitive, Hp; exact Hk).
    destruct (sync_agree pkg ts Hs Hp') as [p3 [Hm Ha]].
    pose proof (sync_distinct pkg ts p3 Hs Hw Hm) as D3.
    set (final := fst (fst (Sync.sync pkg ts))) in *.
    assert (Hd : Sync.get (Sync.rereadProps final) (str "metadata")
                 = Sync.VObj (Sync.rereadProps p3)).
    { rewrite get_reread_found; rewrite Hm; [reflexivity|discriminate]. }
    unfold Sync.sync. cbv zeta.
    assert (E : Sync.ensureMetadata (Sync.rereadProps final)
                = Sync.rereadProps final).
    { unfold Sync.ensureMetadata. rewrite Hd. reflexivity. }
    rewrite E.
    assert (N : forall k ch, In k Sync.keys ->
               Sync.syncField k pkg (Sync.rereadProps final, ch)
               = (Sync.rereadProps final, ch)).
    { intros k ch Hk. apply syncField_noop. rewrite Hd. cbn [Sync.prop].
      specialize (Ha k Hk). specialize (Hp k Hk).
      destruct (Sync.get p3 k) eqn:G;
        try (rewrite get_reread_found; rewrite G; [|discriminate];
             apply reread_agree; assumption).
      rewrite (get_reread_absent p3 k D3 G). exact Ha. }
    rewrite !N; simpl; auto.
  - unfold Sync.sync in *. cbv zeta in *. cbn [fst snd] in *.
    destruct (snd (Sync.syncField (str "description") pkg _)) eqn:C;
      [|discriminate].
    reflexivity.
Qed.

(** X15. The script touches nothing else: every property of the document
    other than [metadata] is what it was, and so is every property of
    [metadata] other than the three (none, when [metadata] was missing
    or falsy). *)
Theorem sync_keeps_the_rest : forall packageJson treeSitterJson k,
  (streq (str "metadata") k = false ->
   Sync.get (fst (fst (Sync.sync packageJson treeSitterJson))) k
   = Sync.get treeSitterJson k) /\
  (streq (str "version") k = false ->
   streq (str "license") k = false ->
   streq (str "description") k = false ->
   Sync.prop (Sync.get (fst (fst (Sync.sync packageJson treeSitterJson)))
                       (str "metadata")) k
   = if Sync.falsy (Sync.get treeSitterJson (str "metadata"))
     then Sync.VUndefined
     else Sync.prop (Sync.get treeSitterJson (str "metadata")) k).
Proof.
  intros pkg ts k. unfold Sync.sync. cbv zeta.
  set (t0 := Sync.ensureMetadata ts).
  pose proof (fun H => syncField_top (str "version") pkg t0 [] k H) as T1.
  pose proof (fun H => syncField_other (str "version") pkg t0 [] k H) as O1.
  destruct (Sync.syncField (str "version") pkg (t0, [])) as [t1 c1].
  pose proof (fun H => syncField_top (str "license") pkg t1 c1 k H) as T2.
  pose proof (fun H => syncField_other (str "license") pkg t1 c1 k H) as O2.
  destruct (Sync.syncField (str "license") pkg (t1, c1)) as [t2 c2].
  pose proof (fun H => syncField_top (str "description") pkg t2 c2 k H) as T3.
  pose proof (fun H => syncField_other (str "description") pkg t2 c2 k H) as O3.
  destruct (Sync.syncField (str "description") pkg (t2, c2)) as [t3 c3].
  cbn [fst snd] in *. split.
  - intros H. rewrite (T3 H), (T2 H), (T1 H). unfold t0.
    apply ensureMetadata_top. exact H.
  - intros H1 H2 H3. rewrite (O3 H3), (O2 H2), (O1 H1). unfold t0.
    unfold Sync.ensureMetadata.
    destruct (Sync.falsy (Sync.get ts (str "metadata"))); [|reflexivity].
    rewrite get_set_same. reflexivity.
Qed.


(** * Instances of the further properties *)

Ltac chars_of H :=
  simpl in H; repeat (destruct H as [H|H]; [subst; reflexivity|]);
  contradiction.

Lemma scan_keeps_lines_witness :
  Forall2 (fun raw out => trim out = trim raw /\ (trim raw = [] -> out = []))
    [str " model A "; str "   "; str "equation"; str "x = 1;"; str "end A;"]
    [str "model A"; str ""; str "  equation"; str "    x = 1;"; str "end A;"].
Proof.
  apply (scan_keeps_lines (str "  ")
           [str " model A "; str "   "; str "equation"; str "x = 1;";
            str "end A;"] scanStart None).
  - vm_compute. reflexivity.
  - vm_compute. reflexivity.
Defined.

Lemma scanLine_level_witness :
  (0 <= indentLevel (fst (scanLine scanStart None (str "model A"))) /\
   Forall (fun f => 0 <= level f)
     (controlBlocks (fst (scanLine scanStart None (str "model A")))) /\
   match snd (scanLine scanStart None (str "model A")) with
   | Some n => 0 <= n
   | None => True
   end) \/
  (isControlEnd (trim (str "model A")) = true /\
   sectionActive scanStart = true /\
   controlBlocks scanStart <> [] /\ indentLevel scanStart = 0 /\
   indentLevel (fst (scanLine scanStart None (str "model A"))) = -1).
Proof.
  apply (scanLine_level scanStart None (str "model A")).
  - simpl. lia.
  - simpl. constructor.
Defined.

Lemma scan_returns_without_opener_or_class_end_witness :
  exists outs,
    indentLines (str "  ") scanStart None
      [str "equation"; str "x = 1;"; str "end if;"; str "end A;"] = Ok outs.
Proof.
  apply (scan_returns_without_opener_or_class_end (str "  ")
           [str "equation"; str "x = 1;"; str "end if;"; str "end A;"]).
  left. repeat (constructor; [vm_compute; reflexivity|]). constructor.
Defined.

Lemma control_block_round_trip_witness :
  scanLines (Scan 1 true false []) None
    (str "if x > 0 then" ::
     [str "y = 1;"; str "else"; str "y = 2;"] ++ [str "end if;"])
    = Scan 1 true false [] /\
  snd (scanLine (Scan 1 true false []) None (str "if x > 0 then"))
    = Some (indentLevel (Scan 1 true false []) + 1) /\
  (forall pre raw post p,
     [str "y = 1;"; str "else"; str "y = 2;"] = pre ++ raw :: post ->
     isElse (trim raw) = true ->
     snd (scanLine (scanLines (Scan 1 true false []) None
                      (str "if x > 0 then" :: pre)) p raw)
       = Some (indentLevel (Scan 1 true false []) + 1)) /\
  (forall p,
     snd (scanLine (scanLines (Scan 1 true false []) None
                      (str "if x > 0 then" ::
                       [str "y = 1;"; str "else"; str "y = 2;"])) p
            (str "end if;"))
       = Some (indentLevel (Scan 1 true false []))).
Proof.
  apply (control_block_round_trip (Scan 1 true false []) None
           (str "if x > 0 then") [str "y = 1;"; str "else"; str "y = 2;"]
           (str "end if;")).
  - reflexivity.
  - vm_compute. reflexivity.
  - constructor; [left; vm_compute; reflexivity|].
    constructor; [right; vm_compute; reflexivity|].
    constructor; [left; vm_compute; reflexivity|]. constructor.
  - vm_compute. reflexivity.
Defined.

Lemma class_round_trip_witness :
  scanLines scanStart None
    (str "model A" :: [str "Real x;"; str ""] ++ [str "end A;"]) = scanStart /\
  snd (scanLine scanStart None (str "model A"))
    = Some (indentLevel scanStart) /\
  (forall p,
     snd (scanLine (scanLines scanStart None
                      (str "model A" :: [str "Real x;"; str ""])) p
            (str "end A;"))
       = Some (indentLevel scanStart)).
Proof.
  apply (class_round_trip scanStart None (str "model A")
           [str "Real x;"; str ""] (str "end A;")).
  - simpl. lia.
  - vm_compute. reflexivity.
  - repeat (constructor; [vm_compute; reflexivity|]). constructor.
  - vm_compute. reflexivity.
Defined.

Lemma pass_keeps_lines_witness :
  Forall2 (fun raw out =>
             trim out = trim raw /\
             (isControlLine (trim raw) = false -> out = raw))
    [str "equation"; str "      if a then"; str "x = 1; "; str "end if;"]
    [str "equation"; str "  if a then"; str "x = 1; "; str "  end if;"].
Proof.
  apply (pass_keeps_lines 2
           [str "equation"; str "      if a then"; str "x = 1; ";
            str "end if;"] passStart).
  vm_compute. reflexivity.
Defined.

Lemma pass_identity_without_header_witness :
  correctLines 2 passStart [str "model A"; str "if a then"; str "end if;"]
  = Ok [str "model A"; str "if a then"; str "end if;"].
Proof.
  apply (pass_identity_without_header 2
           [str "model A"; str "if a then"; str "end if;"]).
  repeat (constructor; [vm_compute; reflexivity|]). constructor.
Defined.

Lemma pass_idempotent_witness :
  correctLines 2 passStart
    [str "equation"; str "  if a then"; str "x = 1; "; str "  end if;"]
  = Ok [str "equation"; str "  if a then"; str "x = 1; "; str "  end if;"].
Proof.
  apply (pass_idempotent 2
           [str "equation"; str "      if a then"; str "x = 1; ";
            str "end if;"] passStart).
  vm_compute. reflexivity.
Defined.

Lemma collapse_idempotent_witness :
  collapseBlankLines (text ["a"; ""; "b"]) = text ["a"; ""; "b"].
Proof.
  apply (proj2 (collapse_idempotent (text ["a"; ""; "b"]))).
  vm_compute. reflexivity.
Defined.

Lemma preprocessLine_needs_minus_witness :
  preprocessLine (str "(1 + ratCycShc)") = str "(1 + ratCycShc)".
Proof.
  apply (preprocessLine_needs_minus (str "(1 + ratCycShc)")).
  intros x Hx. chars_of Hx.
Defined.

Lemma cleanup_needs_sign_witness :
  cleanup (str "x = f(a, b);") = str "x = f(a, b);".
Proof.
  apply (cleanup_needs_sign (str "x = f(a, b);")).
  intros x Hx. chars_of Hx.
Defined.

Lemma sync_makes_metadata_agree_witness :
  Sync.strictNe
    (Sync.prop
       (Sync.get
          (fst (fst (Sync.sync
             [(str "name", Sync.VStr (str "tree-sitter-modelica"));
              (str "version", Sync.VStr (str "0.2.0"));
              (str "license", Sync.VStr (str "MIT"))]
             [(str "grammars", Sync.VArr []);
              (str "metadata",
               Sync.VObj [(str "version", Sync.VStr (str "0.1.0"));
                          (str "authors", Sync.VArr [])])])))
          (str "metadata"))
       (str "license"))
    (Sync.get
       [(str "name", Sync.VStr (str "tree-sitter-modelica"));
        (str "version", Sync.VStr (str "0.2.0"));
        (str "license", Sync.VStr (str "MIT"))]
       (str "license"))
  = false.
Proof.
  apply (sync_makes_metadata_agree
           [(str "name", Sync.VStr (str "tree-sitter-modelica"));
            (str "version", Sync.VStr (str "0.2.0"));
            (str "license", Sync.VStr (str "MIT"))]
           [(str "grammars", Sync.VArr []);
            (str "metadata",
             Sync.VObj [(str "version", Sync.VStr (str "0.1.0"));
                        (str "authors", Sync.VArr [])])]
           (str "license")).
  - vm_compute. reflexivity.
  - intros k Hk. simpl in Hk.
    destruct Hk as [Hk|[Hk|[Hk|[]]]]; subst; vm_compute; reflexivity.
  - simpl. right. left. reflexivity.
Defined.

Lemma sync_idempotent_witness :
  Sync.sync
    [(str "version", Sync.VStr (str "0.2.0")); (str "license", Sync.VNum 3%float)]
    (Sync.onDisk
       [(str "version", Sync.VStr (str "0.2.0")); (str "license", Sync.VNum 3%float)]
       [(str "grammars", Sync.VArr []);
        (str "metadata",
         Sync.VObj [(str "description", Sync.VStr (str "Modelica"))])])
  = (if snd (Sync.sync
               [(str "version", Sync.VStr (str "0.2.0"));
                (str "license", Sync.VNum 3%float)]
               [(str "grammars", Sync.VArr []);
                (str "metadata",
                 Sync.VObj [(str "description", Sync.VStr (str "Modelica"))])])
     then Sync.onDisk
            [(str "version", Sync.VStr (str "0.2.0"));
             (str "license", Sync.VNum 3%float)]
            [(str "grammars", Sync.VArr []);
             (str "metadata",
              Sync.VObj [(str "description", Sync.VStr (str "Modelica"))])]
     else fst (fst (Sync.sync
                      [(str "version", Sync.VStr (str "0.2.0"));
                       (str "license", Sync.VNum 3%float)]
                      [(str "grammars", Sync.VArr []);
                       (str "metadata",
                        Sync.VObj [(str "description",
                                    Sync.VStr (str "Modelica"))])])),
     [], false).
Proof.
  apply (sync_idempotent
           [(str "version", Sync.VStr (str "0.2.0"));
            (str "license", Sync.VNum 3%float)]
           [(str "grammars", Sync.VArr []);
            (str "metadata",
             Sync.VObj [(str "description", Sync.VStr (str "Modelica"))])]).
  - vm_compute. reflexivity.
  - vm_compute. reflexivity.
  - intros k Hk. simpl in Hk.
    destruct Hk as [Hk|[Hk|[Hk|[]]]]; subst; vm_compute; reflexivity.
Defined.

Lemma sync_keeps_the_rest_witness :
  Sync.get
    (fst (fst (Sync.sync [(str "version", Sync.VStr (str "0.2.0"))]
                         [(str "grammars", Sync.VArr [])])))
    (str "grammars")
  = Sync.get [(str "grammars", Sync.VArr [])] (str "grammars").
Proof.
  apply (proj1 (sync_keeps_the_rest
                  [(str "version", Sync.VStr (str "0.2.0"))]
                  [(str "grammars", Sync.VArr [])] (str "grammars"))).
  vm_compute. reflexivity.
Defined.

Lemma stray_control_keywords_witness :
  scanLine (Scan 2 true false []) None (str "end if;")
  = (Scan 2 true false [], Some (indentLevel (Scan 2 true false []))).
Proof.
  apply (stray_control_keywords (Scan 2 true false []) None (str "end if;")).
  right. split; [reflexivity|]. right. vm_compute. reflexivity.
Defined.
